(** * Rhythm runner: the per-frame game loop of [components/Visualizer.tsx]

    A shallow embedding of the game state held in [gameState.current], of the
    three effects that mutate it (jump input, reset on play, the animation
    frame [update]) and of the audio feature extraction that drives spawning.

    Numbers.  A JavaScript [number] is an IEEE-754 binary64 value; the fields
    that hold reals ([playerY], [playerVelY], [groundY], [scrollSpeed] and an
    entity's box) are primitive floats, so that [0 / 0] is NaN and every
    comparison with NaN is false, as in the source.  The fields that only ever
    hold integers ([gameTime], [score], [nextId], the two cooldowns, [distance]
    and an entity's [id]) are of type [Z]: they are changed by [++], [--],
    [+= 1], [+= 50] and assignments of 0, 15 and 25 only, which are exact on
    binary64 below 2^53. *)

From Stdlib Require Import ZArith Lia Bool String Floats Sorted Uint63.
From stdpp Require Import base list.

#[local] Set Warnings "-inexact-float".
#[local] Open Scope Z_scope.

(** ** JavaScript numbers *)

Definition number : Set := float.

Module JS.

(** The integer [n] as a number (exact below 2^53). *)
Definition of_nat (n : nat) : number :=
  PrimFloat.of_uint63 (Uint63.of_Z (Z.of_nat n)).

Definition of_byte (b : Byte.byte) : number :=
  PrimFloat.of_uint63 (Uint63.of_Z (Z.of_N (Byte.to_N b))).

(** [Math.floor] of a non-negative number, as the loop bound and array index
    it is used for; NaN, infinities and negative numbers give 0. *)
Definition Math_floor (v : number) : nat :=
  match Prim2SF v with
  | S754_finite false m e =>
      Z.to_nat (if (0 <=? e)%Z then Z.shiftl (Zpos m) e else Z.shiftr (Zpos m) (- e))
  | _ => 0%nat
  end.

(** [a > b], [a < b], [a >= b]: false as soon as one side is NaN. *)
Definition gt (a b : number) : bool := PrimFloat.ltb b a.
Definition lt (a b : number) : bool := PrimFloat.ltb a b.
Definition ge (a b : number) : bool := PrimFloat.leb b a.
Definition le (a b : number) : bool := PrimFloat.leb a b.

Definition isNaN (a : number) : bool := negb (PrimFloat.eqb a a).

End JS.

(** ** Game engine constants *)

Definition CANVAS_WIDTH : number := 480%float.
Definition CANVAS_HEIGHT : number := 270%float.
Definition GRAVITY : number := 0.6%float.
Definition JUMP_FORCE : number := (-10)%float.
Definition GROUND_HEIGHT : number := 40%float.
Definition SPAWN_X : number := (CANVAS_WIDTH + 50)%float.

(** ** Game entities *)

Inductive EntityType := obstacle | coin.

Definition EntityType_beq (a b : EntityType) : bool :=
  match a, b with
  | obstacle, obstacle | coin, coin => true
  | _, _ => false
  end.

(** [collected] is an optional field of the source; it is only read for its
    truthiness, so an absent field is [false]. *)
Record Entity := mkEntity {
  ent_id : Z;
  ent_x : number;
  ent_y : number;
  ent_w : number;
  ent_h : number;
  ent_type : EntityType;
  ent_color : string;
  ent_collected : bool
}.

Definition set_x (v : number) (e : Entity) : Entity :=
  mkEntity (ent_id e) v (ent_y e) (ent_w e) (ent_h e) (ent_type e) (ent_color e)
           (ent_collected e).

Definition set_collected (v : bool) (e : Entity) : Entity :=
  mkEntity (ent_id e) (ent_x e) (ent_y e) (ent_w e) (ent_h e) (ent_type e)
           (ent_color e) v.

(** ** Game state *)

Record GameState := mkState {
  playerY : number;
  playerVelY : number;
  isJumping : bool;
  groundY : number;
  scrollSpeed : number;
  distance : Z;
  entities : list Entity;
  nextId : Z;
  bassCooldown : Z;
  trebleCooldown : Z;
  score : Z;
  gameOver : bool;
  gameTime : Z
}.

(** The object literal given to [useRef]. *)
Definition initialState : GameState := {|
  playerY := (CANVAS_HEIGHT - GROUND_HEIGHT)%float;
  playerVelY := 0%float;
  isJumping := false;
  groundY := (CANVAS_HEIGHT - GROUND_HEIGHT)%float;
  scrollSpeed := 4%float;
  distance := 0;
  entities := [];
  nextId := 0;
  bassCooldown := 0;
  trebleCooldown := 0;
  score := 0;
  gameOver := false;
  gameTime := 0
|}.

(** Field assignments [state.f = v]. *)
Definition set_playerY (v : number) (s : GameState) : GameState :=
  mkState v (playerVelY s) (isJumping s) (groundY s) (scrollSpeed s) (distance s)
          (entities s) (nextId s) (bassCooldown s) (trebleCooldown s) (score s)
          (gameOver s) (gameTime s).
Definition set_playerVelY (v : number) (s : GameState) : GameState :=
  mkState (playerY s) v (isJumping s) (groundY s) (scrollSpeed s) (distance s)
          (entities s) (nextId s) (bassCooldown s) (trebleCooldown s) (score s)
          (gameOver s) (gameTime s).
Definition set_isJumping (v : bool) (s : GameState) : GameState :=
  mkState (playerY s) (playerVelY s) v (groundY s) (scrollSpeed s) (distance s)
          (entities s) (nextId s) (bassCooldown s) (trebleCooldown s) (score s)
          (gameOver s) (gameTime s).
Definition set_scrollSpeed (v : number) (s : GameState) : GameState :=
  mkState (playerY s) (playerVelY s) (isJumping s) (groundY s) v (distance s)
          (entities s) (nextId s) (bassCooldown s) (trebleCooldown s) (score s)
          (gameOver s) (gameTime s).
Definition set_entities (v : list Entity) (s : GameState) : GameState :=
  mkState (playerY s) (playerVelY s) (isJumping s) (groundY s) (scrollSpeed s)
          (distance s) v (nextId s) (bassCooldown s) (trebleCooldown s) (score s)
          (gameOver s) (gameTime s).
Definition set_nextId (v : Z) (s : GameState) : GameState :=
  mkState (playerY s) (playerVelY s) (isJumping s) (groundY s) (scrollSpeed s)
          (distance s) (entities s) v (bassCooldown s) (trebleCooldown s) (score s)
          (gameOver s) (gameTime s).
Definition set_bassCooldown (v : Z) (s : GameState) : GameState :=
  mkState (playerY s) (playerVelY s) (isJumping s) (groundY s) (scrollSpeed s)
          (distance s) (entities s) (nextId s) v (trebleCooldown s) (score s)
          (gameOver s) (gameTime s).
Definition set_trebleCooldown (v : Z) (s : GameState) : GameState :=
  mkState (playerY s) (playerVelY s) (isJumping s) (groundY s) (scrollSpeed s)
          (distance s) (entities s) (nextId s) (bassCooldown s) v (score s)
          (gameOver s) (gameTime s).
Definition set_score (v : Z) (s : GameState) : GameState :=
  mkState (playerY s) (playerVelY s) (isJumping s) (groundY s) (scrollSpeed s)
          (distance s) (entities s) (nextId s) (bassCooldown s) (trebleCooldown s) v
          (gameOver s) (gameTime s).
Definition set_gameOver (v : bool) (s : GameState) : GameState :=
  mkState (playerY s) (playerVelY s) (isJumping s) (groundY s) (scrollSpeed s)
          (distance s) (entities s) (nextId s) (bassCooldown s) (trebleCooldown s)
          (score s) v (gameTime s).
Definition set_gameTime (v : Z) (s : GameState) : GameState :=
  mkState (playerY s) (playerVelY s) (isJumping s) (groundY s) (scrollSpeed s)
          (distance s) (entities s) (nextId s) (bassCooldown s) (trebleCooldown s)
          (score s) (gameOver s) v.

(** ** Calls recorded while an effect runs

    [onScoreUpdate(n)] is the only call that leaves the component; the pushes
    onto [state.entities] are recorded with it, in program order, so that a
    frame tells which entities it spawned. *)
Inductive Call :=
| onScoreUpdate (n : Z)
| entities_push (e : Entity).

Definition Run : Type := GameState * list Call.

Definition call (c : Call) (r : Run) : Run := (r.1, r.2 ++ [c]).
Definition modify (f : GameState -> GameState) (r : Run) : Run := (f r.1, r.2).

(** ** Input handling: [handleInput] *)

Definition handleInput (isPlaying : bool) (s : GameState) : GameState :=
  if negb isPlaying || gameOver s then s
  else if negb (isJumping s) then
    set_isJumping true (set_playerVelY JUMP_FORCE s)
  else if JS.gt (playerY s) (groundY s - 50)%float then
    s (* the forgiveness branch is commented out in the source *)
  else s.

(** ** Reset on play: the effect on [isPlaying, onScoreUpdate] *)

Definition resetEffect (isPlaying : bool) (s : GameState) : Run :=
  if negb isPlaying then (s, [])
  else if gameOver s || (gameTime s =? 0) then
    let s := set_playerY (CANVAS_HEIGHT - GROUND_HEIGHT)%float s in
    let s := set_playerVelY 0%float s in
    let s := set_isJumping false s in
    let s := set_entities [] s in
    let s := set_score 0 s in
    let s := set_gameOver false s in
    let s := set_gameTime 0 s in
    (s, [onScoreUpdate 0])
  else (s, []).

(** ** Audio analysis: the first block of [update]

    [data] is [dataArray] after [analyser.getByteFrequencyData(dataArray)]; its
    length is [bufferLength = analyser.frequencyBinCount]. *)

(** [dataArray[i]]; reading past the end gives [undefined], which adds as NaN. *)
Definition bin (data : list Byte.byte) (i : nat) : number :=
  match data !! i with
  | Some b => JS.of_byte b
  | None => PrimFloat.nan
  end.

(** [for (let i = lo; i < lo + n; i++) acc += dataArray[i]]. *)
Fixpoint sumBins (data : list Byte.byte) (lo n : nat) (acc : number) : number :=
  match n with
  | O => acc
  | S n' => sumBins data (S lo) n' (acc + bin data lo)%float
  end.

Record Features := mkFeatures { bass : number; treble : number; volume : number }.

Definition silence : Features := mkFeatures 0%float 0%float 0%float.

Definition analyse (data : list Byte.byte) : Features :=
  let bufferLength := length data in
  let bassEnd := JS.Math_floor (JS.of_nat bufferLength * 0.15)%float in
  let bassSum := sumBins data 0 bassEnd 0%float in
  let trebleStart := JS.Math_floor (JS.of_nat bufferLength * 0.7)%float in
  let trebleSum := sumBins data trebleStart (bufferLength - trebleStart) 0%float in
  let total := sumBins data 0 bufferLength 0%float in
  {| bass := (bassSum / JS.of_nat bassEnd)%float;
     treble := (trebleSum / (JS.of_nat bufferLength - JS.of_nat trebleStart))%float;
     volume := (total / JS.of_nat bufferLength / 255)%float |}.

(** [analyser] is [None] for a null prop, and otherwise the snapshot the
    analyser writes this frame. *)
Definition audioAnalysis (isPlaying : bool) (analyser : option (list Byte.byte))
    (s : GameState) : Features * GameState :=
  match analyser with
  | Some data =>
      if isPlaying && negb (gameOver s) then
        let f := analyse data in
        (f, set_scrollSpeed (3 + volume f * 4)%float s)
      else (silence, s)
  | None => (silence, s)
  end.

(** [bufferLength = analyser ? analyser.frequencyBinCount : 0]. *)
Definition bufferLength (analyser : option (list Byte.byte)) : nat :=
  match analyser with Some data => length data | None => 0 end.


(** ** Physics and logic: the second block of [update] *)

Definition physics (s : GameState) : GameState :=
  let s := set_playerVelY (playerVelY s + GRAVITY)%float s in
  let s := set_playerY (playerY s + playerVelY s)%float s in
  if JS.ge (playerY s) (groundY s) then
    set_isJumping false (set_playerVelY 0%float (set_playerY (groundY s) s))
  else s.

Definition cooldowns (s : GameState) : GameState :=
  let s := if 0 <? bassCooldown s then set_bassCooldown (bassCooldown s - 1) s else s in
  if 0 <? trebleCooldown s then set_trebleCooldown (trebleCooldown s - 1) s else s.

Definition newObstacle (s : GameState) : Entity :=
  mkEntity (nextId s) SPAWN_X (groundY s - 30)%float 24%float 30%float obstacle
           "#ff4081" false.

Definition spawnObstacle (f : Features) (r : Run) : Run :=
  let s := r.1 in
  if JS.gt (bass f) 155%float && (bassCooldown s =? 0) then
    let e := newObstacle s in
    call (entities_push e)
      (modify (fun s => set_bassCooldown 25
                 (set_entities (entities s ++ [e]) (set_nextId (nextId s + 1) s))) r)
  else r.

(** [random] is the value [Math.random()] returns this frame. *)
Definition newCoin (random : number) (s : GameState) : Entity :=
  let height := if JS.gt random 0.5%float then 80%float else 140%float in
  mkEntity (nextId s) SPAWN_X (groundY s - height)%float 20%float 20%float coin
           "#ffff00" false.

Definition spawnCoin (f : Features) (random : number) (r : Run) : Run :=
  let s := r.1 in
  if JS.gt (treble f) 100%float && (trebleCooldown s =? 0) then
    let e := newCoin random s in
    call (entities_push e)
      (modify (fun s => set_trebleCooldown 15
                 (set_entities (entities s ++ [e]) (set_nextId (nextId s + 1) s))) r)
  else r.

(** The AABB test of the loop body, on the entity already moved. *)
Definition overlaps (playerY : number) (ent : Entity) : bool :=
  let playerW := 30%float in
  let playerH := 40%float in
  let playerX := (CANVAS_WIDTH / 4 - playerW / 2)%float in
  let playerY_Top := (playerY - playerH)%float in
  negb (ent_collected ent)
  && JS.lt playerX (ent_x ent + ent_w ent)%float
  && JS.gt (playerX + playerW)%float (ent_x ent)
  && JS.lt playerY_Top (ent_y ent + ent_h ent)%float
  && JS.gt (playerY_Top + playerH)%float (ent_y ent).

(** [ent.x < -50 || ent.collected]. *)
Definition offscreen_or_collected (ent : Entity) : bool :=
  JS.lt (ent_x ent) (-50)%float || ent_collected ent.

(** One iteration of [for (let i = length - 1; i >= 0; i--)]: the entity at
    index [i] is moved and written back, tested, and spliced out. An index
    past the end does not occur, as the loop starts at the last index and
    a splice at [i] leaves the indices below [i] alone ([entityLoop_prefix]);
    the model leaves the state alone there. *)
Definition entityIter (i : nat) (r : Run) : Run :=
  match entities r.1 !! i with
  | None => r
  | Some ent =>
      let ent := set_x (ent_x ent - scrollSpeed r.1)%float ent in
      let r := modify (fun s => set_entities (<[i := ent]> (entities s)) s) r in
      let '(ent, r) :=
        if overlaps (playerY r.1) ent then
          match ent_type ent with
          | coin =>
              let ent := set_collected true ent in
              let r := modify (fun s => set_score (score s + 50)
                                 (set_entities (<[i := ent]> (entities s)) s)) r in
              (ent, call (onScoreUpdate (score r.1)) r)
          | obstacle => (ent, modify (set_gameOver true) r)
          end
        else (ent, r) in
      if offscreen_or_collected ent then
        modify (fun s => set_entities (delete i (entities s)) s) r
      else r
  end.

(** The last [n] iterations of the loop: indices [n - 1] down to [0]. *)
Fixpoint entityLoop (n : nat) (r : Run) : Run :=
  match n with
  | O => r
  | S i => entityLoop i (entityIter i r)
  end.

Definition updateEntities (r : Run) : Run :=
  entityLoop (length (entities r.1)) r.

(** The [k] iterations at the indices [lo + k - 1] down to [lo]: a stretch of
    the loop. *)
Fixpoint entityLoopFrom (lo k : nat) (r : Run) : Run :=
  match k with
  | O => r
  | S k' => entityLoopFrom lo k' (entityIter (lo + k') r)
  end.

Definition passiveScore (r : Run) : Run :=
  if Z.rem (gameTime r.1) 10 =? 0 then
    let r := modify (fun s => set_score (score s + 1) s) r in
    call (onScoreUpdate (score r.1)) r
  else r.

Definition simulate (f : Features) (random : number) (s : GameState) : Run :=
  let s := set_gameTime (gameTime s + 1) s in
  let s := physics s in
  let s := cooldowns s in
  let r := spawnObstacle f (s, []) in
  let r := spawnCoin f random r in
  let r := updateEntities r in
  passiveScore r.

(** ** The animation frame: [update] without its drawing part, which reads the
    state and does not write it. *)
Definition update (isPlaying : bool) (analyser : option (list Byte.byte))
    (random : number) (s : GameState) : Run :=
  let '(f, s) := audioAnalysis isPlaying analyser s in
  if isPlaying && negb (gameOver s) then simulate f random s
  else (s, []).

(** ** The component over time

    [isPlaying] is a prop. The reset effect re-runs when the prop changes; the
    input listener and the frame callback close over its current value.  A
    change of the prop also restarts the frame loop, whose first frame runs at
    once; the events below leave the order of frames and inputs free, which
    covers that schedule. *)

Inductive Event :=
| Play                      (* the parent sets [isPlaying] to true *)
| Pause                     (* the parent sets [isPlaying] to false *)
| Jump                      (* keydown, touchstart or mousedown *)
| Frame (analyser : option (list Byte.byte)) (random : number).

Record World := mkWorld { isPlaying : bool; state : GameState }.

Definition initialWorld : World := mkWorld false initialState.

Definition step (ev : Event) (w : World) : World * list Call :=
  match ev with
  | Play =>
      if isPlaying w then (w, [])
      else let r := resetEffect true (state w) in (mkWorld true r.1, r.2)
  | Pause =>
      if isPlaying w then
        let r := resetEffect false (state w) in (mkWorld false r.1, r.2)
      else (w, [])
  | Jump => (mkWorld (isPlaying w) (handleInput (isPlaying w) (state w)), [])
  | Frame analyser random =>
      let r := update (isPlaying w) analyser random (state w) in
      (mkWorld (isPlaying w) r.1, r.2)
  end.

(** The world after a sequence of events, with the calls of each event. *)
Fixpoint run (evs : list Event) (w : World) : World * list (list Call) :=
  match evs with
  | [] => (w, [])
  | ev :: evs =>
      let '(w1, c) := step ev w in
      let '(w2, cs) := run evs w1 in
      (w2, c :: cs)
  end.

Definition exec (evs : list Event) (w : World) : World := (run evs w).1.

Definition reachable (w : World) : Prop := exists evs, exec evs initialWorld = w.

(** ** The entity pass in three phases

    The order of the specification: every entity is advanced, then collisions
    are resolved over the whole advanced sequence, front to back, then the
    entities that left the screen or were collected are removed. *)

Definition advance (speed : number) (ent : Entity) : Entity :=
  set_x (ent_x ent - speed)%float ent.

Definition advanceAll (r : Run) : Run :=
  modify (fun s => set_entities (map (advance (scrollSpeed s)) (entities s)) s) r.

(** Collisions over [todo], front to back; [done] holds the entities already
    tested, in order. *)
Fixpoint resolveCollisions (todo done : list Entity) (r : Run) : Run :=
  match todo with
  | [] => modify (set_entities done) r
  | ent :: todo =>
      if overlaps (playerY r.1) ent then
        match ent_type ent with
        | coin =>
            let r := modify (fun s => set_score (score s + 50) s) r in
            resolveCollisions todo (done ++ [set_collected true ent])
                              (call (onScoreUpdate (score r.1)) r)
        | obstacle =>
            resolveCollisions todo (done ++ [ent]) (modify (set_gameOver true) r)
        end
      else resolveCollisions todo (done ++ [ent]) r
  end.

Definition collisionPass (r : Run) : Run := resolveCollisions (entities r.1) [] r.

Definition prune (r : Run) : Run :=
  modify (fun s => set_entities
            (List.filter (fun ent => negb (offscreen_or_collected ent)) (entities s)) s) r.

Definition threePhase (r : Run) : Run := prune (collisionPass (advanceAll r)).

(** ** What a pass does to the sequence, entity by entity *)

Definition hitsCoin (py : number) (ent : Entity) : bool :=
  overlaps py ent && EntityType_beq (ent_type ent) coin.

Definition hitsObstacle (py : number) (ent : Entity) : bool :=
  overlaps py ent && EntityType_beq (ent_type ent) obstacle.

(** The entity after its iteration: moved, and collected if it is a coin that
    the player overlaps. *)
Definition settle (speed py : number) (ent : Entity) : Entity :=
  let ent := advance speed ent in
  if hitsCoin py ent then set_collected true ent else ent.

Definition coinsHit (speed py : number) (es : list Entity) : nat :=
  length (List.filter (hitsCoin py) (map (advance speed) es)).

Definition obstacleHit (speed py : number) (es : list Entity) : bool :=
  existsb (hitsObstacle py) (map (advance speed) es).

Definition survivors (speed py : number) (es : list Entity) : list Entity :=
  List.filter (fun ent => negb (offscreen_or_collected ent)) (map (settle speed py) es).

(** The state after the iterations over the stretch [seg] of the sequence
    [pre ++ seg ++ suf]: the closed form of the pass. *)
Definition passedOver (pre seg suf : list Entity) (s : GameState) : GameState :=
  let speed := scrollSpeed s in
  let py := playerY s in
  set_gameOver (gameOver s || obstacleHit speed py seg)
    (set_score (score s + 50 * Z.of_nat (coinsHit speed py seg))
       (set_entities (pre ++ survivors speed py seg ++ suf) s)).

Definition passed (pre suf : list Entity) (s : GameState) : GameState :=
  passedOver [] pre suf s.

(** [k] coin pickups from score [from]: [onScoreUpdate] with each new score. *)
Fixpoint scoreCalls (from : Z) (k : nat) : list Call :=
  match k with
  | O => []
  | S k => onScoreUpdate (from + 50) :: scoreCalls (from + 50) k
  end.

(** ** The frame of an active game, field by field *)

Definition b2z (b : bool) : Z := if b then 1 else 0.

(** The state at the spawn decisions of a frame. *)
Definition prepared (s : GameState) : GameState :=
  cooldowns (physics (set_gameTime (gameTime s + 1) s)).

(** The frame of an active game, field by field, from the state [s1] at the
    spawn decisions. *)
Definition simulated (f : Features) (random : number) (s1 : GameState) : Run :=
  let so := JS.gt (bass f) 155%float && (bassCooldown s1 =? 0) in
  let sc := JS.gt (treble f) 100%float && (trebleCooldown s1 =? 0) in
  let eo := if so then [newObstacle s1] else [] in
  let ec := if sc then [newCoin random (set_nextId (nextId s1 + b2z so) s1)] else [] in
  let es := entities s1 ++ eo ++ ec in
  let k := coinsHit (scrollSpeed s1) (playerY s1) es in
  let tick := Z.rem (gameTime s1) 10 =? 0 in
  let total := score s1 + 50 * Z.of_nat k + b2z tick in
  (mkState (playerY s1) (playerVelY s1) (isJumping s1) (groundY s1) (scrollSpeed s1)
           (distance s1) (survivors (scrollSpeed s1) (playerY s1) es)
           (nextId s1 + b2z so + b2z sc)
           (if so then 25 else bassCooldown s1) (if sc then 15 else trebleCooldown s1)
           total
           (gameOver s1 || obstacleHit (scrollSpeed s1) (playerY s1) es)
           (gameTime s1),
   map entities_push (eo ++ ec) ++ scoreCalls (score s1) k
   ++ if tick then [onScoreUpdate total] else []).

(** ** Reading a trace *)

Definition isPush (t : EntityType) (c : Call) : bool :=
  match c with
  | entities_push e => EntityType_beq (ent_type e) t
  | onScoreUpdate _ => false
  end.

(** The entities of type [t] pushed by the calls [cs]. *)
Definition pushed (t : EntityType) (cs : list Call) : list Entity :=
  omap (fun c => match c with
                 | entities_push e => if EntityType_beq (ent_type e) t then Some e else None
                 | onScoreUpdate _ => None
                 end) cs.

Definition spawns (t : EntityType) (cs : list Call) : bool := existsb (isPush t) cs.

Definition isFrame (ev : Event) : bool :=
  match ev with Frame _ _ => true | _ => false end.

(** The number of animation frames among the events [evs]. *)
Definition frames (evs : list Event) : nat := length (List.filter isFrame evs).

(** A frame is active when it finds the game playing and not over: the
    condition of the second block of [update], which holds the decrement of
    the cooldowns and the spawns. *)
Definition active (w : World) : bool := isPlaying w && negb (gameOver (state w)).

(** The number of active frames among the events [evs], run from [w]. *)
Fixpoint activeFrames (evs : list Event) (w : World) : nat :=
  match evs with
  | [] => 0
  | ev :: evs =>
      (if isFrame ev && active w then 1 else 0) + activeFrames evs (step ev w).1
  end.

(** ** The configurations of the player

    From the ground a jump starts an arc that [physics] follows frame by
    frame until the clamp puts the player back on the ground. *)

Definition config (s : GameState) : number * number * bool :=
  (playerY s, playerVelY s, isJumping s).

Definition ofConfig (c : number * number * bool) : GameState :=
  set_isJumping c.2 (set_playerVelY c.1.2 (set_playerY c.1.1 initialState)).

Definition onGround : number * number * bool := config initialState.

Definition jumpArc : list (number * number * bool) :=
  Eval vm_compute in
    map (fun n => config (Nat.iter n physics (handleInput true initialState))) (seq 0 36).

Definition configs : list (number * number * bool) := onGround :: jumpArc.

(** The features and the scroll speed of a frame of an active game. *)
Definition featuresOf (analyser : option (list Byte.byte)) : Features :=
  match analyser with Some data => analyse data | None => silence end.

Definition speedOf (analyser : option (list Byte.byte)) (s : GameState) : number :=
  match analyser with
  | Some data => (3 + volume (analyse data) * 4)%float
  | None => scrollSpeed s
  end.

(** The player after [physics] and after a jump, from the configuration. *)
Definition physicsC (c : number * number * bool) : number * number * bool :=
  config (physics (ofConfig c)).

Definition jumpC (c : number * number * bool) : number * number * bool :=
  config (handleInput true (ofConfig c)).

(** The invariant of the player: the ground line never moves, and the
    player is on the ground or on the arc of a jump. *)
Definition playerInv (s : GameState) : Prop :=
  groundY s = groundY initialState /\ In (config s) configs.

(** Every identifier in use is below the next one to hand out. *)
Definition idsBelow (s : GameState) : Prop :=
  List.Forall (fun ent => ent_id ent < nextId s) (entities s).

(** Whether the events [evs], met while [isPlaying] is [playing], never make
    the parent turn [isPlaying] from false to true (the only event that
    re-runs the reset effect with [isPlaying] true). *)
Fixpoint noReset (playing : bool) (evs : list Event) : bool :=
  match evs with
  | [] => true
  | Play :: evs => playing && noReset true evs
  | Pause :: evs => noReset false evs
  | _ :: evs => noReset playing evs
  end.

(** ** A sample session, for the examples *)

Definition u8 (n : nat) : Byte.byte :=
  match Byte.of_nat n with Some b => b | None => Byte.x00 end.

(** Sixteen bins (an analyser with [fftSize = 32]), all at full magnitude. *)
Definition loud : list Byte.byte := replicate 16 (u8 255).

(** Play, then 57 loud frames, the player never jumping.  Every frame has
    bass 255, treble 255 and volume 1, so the scroll speed is 7.  Obstacles are
    spawned in frames 1, 26 and 51 and coins in frames 1, 16, 31 and 46, which
    uses the ids 0 to 6; the first obstacle is at [530 - 7 * 57 = 131] in frame
    57 and overlaps the player, who stands on the ground. *)
Definition crashed : World :=
  exec (Play :: replicate 57 (Frame (Some loud) 0.7%float)) initialWorld.

(** Play, then 25 loud frames: the obstacle of frame 1 has left
    [bassCooldown] at 1 and the ids 0 to 2 are in use, so that frame 26 finds
    the cooldown at 0 after its decrement. *)
Definition cooling : World :=
  exec (Play :: replicate 25 (Frame (Some loud) 0.7%float)) initialWorld.

(** A session with a pause: the obstacle of the first frame, nine more
    frames, a pause that lasts five frames, and sixteen frames after the
    resume, the last of which spawns the second obstacle. *)
Definition interrupted : list Event :=
  Play :: replicate 10 (Frame (Some loud) 0.7%float)
  ++ Pause :: replicate 5 (Frame (Some loud) 0.7%float)
  ++ Play :: replicate 16 (Frame (Some loud) 0.7%float).

(** Play with no analyser, the frame that the restarted loop runs at once,
    then a jump. *)
Definition airborne : World := exec [Play; Frame None 0%float; Jump] initialWorld.

(** Spectra that raise one band only, and silence. *)
Definition trebleOnly : list Byte.byte := replicate 11 (u8 0) ++ replicate 5 (u8 255).
Definition bassOnly : list Byte.byte := replicate 2 (u8 255) ++ replicate 14 (u8 0).
Definition quiet : list Byte.byte := replicate 16 (u8 0).

(** A coin is spawned in the first frame and an obstacle in the second; the
    player jumps so as to be 26.4 above the ground when both arrive. *)
Definition approach : list Event :=
  [Play; Frame (Some trebleOnly) 0.7%float; Frame (Some bassOnly) 0%float]
  ++ replicate 128 (Frame (Some quiet) 0%float)
  ++ [Jump; Frame (Some quiet) 0%float; Frame (Some quiet) 0%float].

(** The state of the frame after [approach] when its entity pass begins. *)
Definition beforeCollision : GameState :=
  prepared (set_scrollSpeed (speedOf (Some quiet) (state (exec approach initialWorld)))
              (state (exec approach initialWorld))).

(** ** Further readings of a session *)

(** The state variable of a parent that passes its setter as
    [onScoreUpdate], after the calls [cs]: the argument of the last
    [onScoreUpdate], or the value [d] the variable had before.  This reads the
    calls of the component only; the writes of the parent itself are in
    [appStep] below. *)
Definition scoreAfter (d : Z) (cs : list Call) : Z :=
  fold_left (fun d c => match c with onScoreUpdate n => n | entities_push _ => d end) cs d.

(** Every entity pushed by the calls [cs], of either type. *)
Definition pushedAll (cs : list Call) : list Entity :=
  omap (fun c => match c with entities_push e => Some e | onScoreUpdate _ => None end) cs.

(** An entity that the pass keeps: not collected and not past the left
    edge. *)
Definition onScreen (ent : Entity) : Prop :=
  ent_collected ent = false /\ JS.lt (ent_x ent) (-50)%float = false.

(** The two kinds of entity the spawner makes, on the ground line of the
    initial state. *)
Definition wellShaped (ent : Entity) : Prop :=
  match ent_type ent with
  | obstacle =>
      ent_y ent = 200%float /\ ent_w ent = 24%float /\ ent_h ent = 30%float
      /\ ent_color ent = "#ff4081"%string
  | coin =>
      (ent_y ent = 150%float \/ ent_y ent = 90%float)
      /\ ent_w ent = 20%float /\ ent_h ent = 20%float
      /\ ent_color ent = "#ffff00"%string
  end.

(** The [m] identifiers from [n] on. *)
Definition idsFrom (n : Z) (m : nat) : list Z :=
  map (fun i => n + Z.of_nat i) (seq 0 m).

Definition isPlay (ev : Event) : bool :=
  match ev with Play => true | _ => false end.

(** ** The parent and the score of the HUD ([App.tsx])

    [App] keeps [score] in a state variable that starts at 0, shows it in
    [TopHUD] and hands [setScore] to the component as [onScoreUpdate].  It
    writes the variable itself in one place: [handleFileUpload] calls
    [setScore(0)] and then, the audio element being there,
    [setIsPlaying(false)]; it does not touch the game state.  The other
    events of the parent reach the component as [Play] ([togglePlay]) and
    [Pause] ([togglePlay], and the end of the track). *)

Record App := mkApp { shown : Z; world : World }.

Definition initialApp : App := mkApp 0 initialWorld.

Inductive AppEvent :=
| Child (ev : Event)            (* an event of the component *)
| FileUpload (audio : bool).    (* a file is chosen; [audio] is [audioRef.current] *)

Definition appStep (ev : AppEvent) (a : App) : App :=
  match ev with
  | Child ev =>
      let r := step ev (world a) in
      mkApp (scoreAfter (shown a) r.2) r.1
  | FileUpload audio =>
      let r := if audio then step Pause (world a) else (world a, []) in
      mkApp (scoreAfter 0 r.2) r.1
  end.

Definition appExec (evs : list AppEvent) (a : App) : App :=
  fold_left (fun a ev => appStep ev a) evs a.

Definition isUpload (ev : AppEvent) : bool :=
  match ev with FileUpload _ => true | Child _ => false end.

(** ** Checks by enumeration

    What the sampler does to a buffer depends on a few bounded integers only
    (the length, and the sums of the bytes of a band); the facts about them
    are checked on every value. *)

Definition ofInt (i : Uint63.int) : number := PrimFloat.of_uint63 i.

Definition ofZ (z : Z) : number := ofInt (Uint63.of_Z z).

(** [p] on [i] plus every sum of a sublist of [ds]. *)
Fixpoint allSums (ds : list Uint63.int) (i : Uint63.int) (p : Uint63.int -> bool) : bool :=
  match ds with
  | [] => p i
  | d :: ds => allSums ds i p && allSums ds (Uint63.add i d) p
  end.

(** The powers of two below [2 ^ k], the largest first. *)
Definition bits (k : nat) : list Uint63.int :=
  map (fun j => Uint63.of_Z (2 ^ Z.of_nat j)) (rev (seq 0 k)).

Definition within (lo hi x : number) : bool := PrimFloat.leb lo x && PrimFloat.leb x hi.

Definition byteZ (b : Byte.byte) : Z := Z.of_N (Byte.to_N b).

(** The sum of the bytes that [sumBins] adds, as an integer. *)
Fixpoint sumZ (data : list Byte.byte) (lo n : nat) : Z :=
  match n with
  | O => 0
  | S n' => match data !! lo with Some b => byteZ b | None => 0 end + sumZ data (S lo) n'
  end.

(** The divisions of [analyse] on a buffer of [N] bins, for every sum the
    band can have. *)
Definition bassCheck (N : nat) : bool :=
  let k := JS.Math_floor (JS.of_nat N * 0.15)%float in
  let d := JS.of_nat k in
  let bound := Uint63.of_Z (255 * Z.of_nat k) in
  (1 <=? k)%nat && (k <=? N)%nat && (k <=? 32)%nat
  && allSums (bits 13) 0%uint63
       (fun sum => negb (Uint63.leb sum bound) || within 0%float 255%float (ofInt sum / d)%float).

Definition trebleCheck (N : nat) : bool :=
  let ts := JS.Math_floor (JS.of_nat N * 0.7)%float in
  let d := (JS.of_nat N - JS.of_nat ts)%float in
  let bound := Uint63.of_Z (255 * Z.of_nat (N - ts)) in
  (ts <=? N)%nat && (N - ts <=? 64)%nat
  && allSums (bits 14) 0%uint63
       (fun sum => negb (Uint63.leb sum bound) || within 0%float 255%float (ofInt sum / d)%float).

Definition volumeCheck (N : nat) : bool :=
  let d := JS.of_nat N in
  let bound := Uint63.of_Z (255 * Z.of_nat N) in
  allSums (bits 15) 0%uint63
    (fun sum => negb (Uint63.leb sum bound)
                || (within 0%float 1%float (ofInt sum / d / 255)%float
                    && within 3%float 7%float (3 + ofInt sum / d / 255 * 4)%float)).

(** ** Integers in binary64 *)

(** The binary64 value of a positive integer below 2^53: the mantissa is the
    integer shifted to 53 bits. *)
Definition normalized (n : Z) : spec_float :=
  S754_finite false (Z.to_pos (n * 2 ^ (52 - Z.log2 n))) (Z.log2 n - 52).



(** ** Drawing the spectrum: [drawSkySpectrum]

    The canvas is written through [fillRect] only; a call is recorded with the
    [fillStyle] in force. *)

Inductive Draw :=
| fillRect (fillStyle : string) (x y w h : number).

(** [Math.max] of two numbers: NaN if one is NaN, and [+0] above [-0]. *)
Definition Math_max (a b : number) : number :=
  if PrimFloat.is_nan a || PrimFloat.is_nan b then PrimFloat.nan
  else if PrimFloat.ltb a b then b
  else if PrimFloat.ltb b a then a
  else if PrimFloat.get_sign a then b else a.

(** [for (let j = 0; j < n; j++) val = Math.max(val, data[start + j])]. *)
Fixpoint barPeak (data : list Byte.byte) (start n : nat) (val : number) : number :=
  match n with
  | O => val
  | S n' => barPeak data (S start) n' (Math_max val (bin data start))
  end.

(** The iterations [i], ..., [i + n - 1] of the loop over the bars. *)
Fixpoint skyBars (data : list Byte.byte) (step i n : nat) : list Draw :=
  match n with
  | O => []
  | S n' =>
      let width := (CANVAS_WIDTH / 16)%float in
      let val := barPeak data (i * step) step 0%float in
      let height := (val / 255 * (CANVAS_HEIGHT / 2))%float in
      fillRect "rgba(255, 255, 255, 0.4)" (JS.of_nat i * width + 2)%float 0%float
               (width - 4)%float height
      :: (if JS.gt val 100%float then
            [fillRect (if Nat.even i then "#ff80ab" else "#ffff8d")
                      (JS.of_nat i * width + 4)%float (height + 5)%float
                      (width - 8)%float 4%float]
          else [])
      ++ skyBars data step (S i) n'
  end.

Definition drawSkySpectrum (data : list Byte.byte) : list Draw :=
  let length := length data in
  if (length =? 0)%nat then []
  else
    let bars := 16%nat in
    let step := JS.Math_floor (JS.of_nat length / JS.of_nat bars)%float in
    skyBars data step 0 bars.

(** The largest byte among the [n] bins from [start] on, 0 if there is
    none. *)
Definition windowPeak (data : list Byte.byte) (start n : nat) : Z :=
  fold_right Z.max 0 (map byteZ (take n (drop start data))).

(** What the loop draws for bar [i] when the peak of its window is [m]. *)
Definition barOf (i : nat) (m : Z) : list Draw :=
  let width := (CANVAS_WIDTH / 16)%float in
  let height := (ofZ m / 255 * (CANVAS_HEIGHT / 2))%float in
  fillRect "rgba(255, 255, 255, 0.4)" (JS.of_nat i * width + 2)%float 0%float
           (width - 4)%float height
  :: (if 100 <? m then
        [fillRect (if Nat.even i then "#ff80ab" else "#ffff8d")
                  (JS.of_nat i * width + 4)%float (height + 5)%float
                  (width - 8)%float 4%float]
      else []).

Definition maxCheck (a b : Uint63.int) : bool :=
  PrimFloat.Leibniz.eqb (Math_max (ofInt a) (ofInt b))
                        (ofInt (if Uint63.ltb a b then b else a)).

Definition heightCheck (m : Uint63.int) : bool :=
  within 0%float 135%float (ofInt m / 255 * (CANVAS_HEIGHT / 2))%float
  && Bool.eqb (JS.gt (ofInt m) 100%float) (Uint63.ltb 100%uint63 m).

Definition stepCheck (N : nat) : bool :=
  (JS.Math_floor (JS.of_nat N / JS.of_nat 16)%float =? N / 16)%nat.

(** * Properties *)

(** Normalises the assignments made to a state that is given by its fields:
    the setters are unfolded from the inside, so that the term stays small. *)
Ltac setters :=
  unfold modify, call; cbn [fst snd];
  cbv [set_playerY set_playerVelY set_isJumping set_scrollSpeed set_entities
       set_nextId set_bassCooldown set_trebleCooldown set_score set_gameOver
       set_gameTime playerY playerVelY isJumping groundY scrollSpeed distance
       entities nextId bassCooldown trebleCooldown score gameOver gameTime];
  cbn [fst snd ent_id ent_x ent_y ent_w ent_h ent_color ent_type ent_collected
       set_collected EntityType_beq andb orb negb app].

(** ** The entity pass *)

Lemma coinsHit_snoc speed py pre ent :
  coinsHit speed py (pre ++ [ent])
  = (coinsHit speed py pre + if hitsCoin py (advance speed ent) then 1 else 0)%nat.
Proof.
  unfold coinsHit. rewrite map_app, List.filter_app, length_app. simpl.
  destruct (hitsCoin py (advance speed ent)); reflexivity.
Qed.

Lemma obstacleHit_snoc speed py pre ent :
  obstacleHit speed py (pre ++ [ent])
  = obstacleHit speed py pre || hitsObstacle py (advance speed ent).
Proof.
  unfold obstacleHit. rewrite map_app, existsb_app. simpl.
  rewrite orb_false_r. reflexivity.
Qed.

Lemma survivors_snoc speed py pre ent :
  survivors speed py (pre ++ [ent])
  = survivors speed py pre
    ++ (if offscreen_or_collected (settle speed py ent) then [] else [settle speed py ent]).
Proof.
  unfold survivors. rewrite map_app, List.filter_app. simpl.
  destruct (offscreen_or_collected (settle speed py ent)); reflexivity.
Qed.

Lemma insert_middle (pre suf : list Entity) (a b : Entity) :
  <[length pre := b]> (pre ++ a :: suf) = pre ++ b :: suf.
Proof. rewrite insert_app_r_alt by lia. rewrite Nat.sub_diag. reflexivity. Qed.

Lemma delete_middle_ent (pre suf : list Entity) (a : Entity) :
  delete (length pre) (pre ++ a :: suf) = pre ++ suf.
Proof. apply delete_middle. Qed.

Lemma lookup_middle (pre suf : list Entity) (a : Entity) :
  (pre ++ a :: suf) !! length pre = Some a.
Proof. apply list_lookup_middle. reflexivity. Qed.

(** One iteration, on the entity that follows [pre]. *)
Lemma entityIter_middle pre ent suf s log :
  entities s = pre ++ ent :: suf ->
  entityIter (length pre) (s, log)
  = let e := settle (scrollSpeed s) (playerY s) ent in
    let hitc := hitsCoin (playerY s) (advance (scrollSpeed s) ent) in
    (set_gameOver (gameOver s || hitsObstacle (playerY s) (advance (scrollSpeed s) ent))
       (set_score (if hitc then score s + 50 else score s)
          (set_entities (pre ++ (if offscreen_or_collected e then [] else [e]) ++ suf) s)),
     log ++ if hitc then [onScoreUpdate (score s + 50)] else []).
Proof.
  intros E. destruct s; simpl in E; subst.
  destruct ent as [i x y w h t c col].
  unfold entityIter. cbn [fst snd entities]. rewrite lookup_middle.
  unfold settle, hitsCoin, hitsObstacle, advance, offscreen_or_collected, set_x.
  setters.
  destruct (overlaps _ _); destruct t; setters;
    destruct (JS.lt _ _); destruct col; setters;
    rewrite ?insert_middle, ?delete_middle_ent, ?orb_true_r, ?orb_false_r, ?app_nil_r;
    reflexivity.
Qed.

Lemma orb_swap a b c : a || c || b = a || (b || c).
Proof. destruct a, b, c; reflexivity. Qed.

Lemma entityLoopFrom_stretch pre seg : forall suf s log,
  entities s = pre ++ seg ++ suf ->
  entityLoopFrom (length pre) (length seg) (s, log)
  = (passedOver pre seg suf s,
     log ++ scoreCalls (score s) (coinsHit (scrollSpeed s) (playerY s) seg)).
Proof.
  induction seg as [|ent seg IH] using rev_ind; intros suf s log E.
  - destruct s; simpl in E; subst. unfold passedOver, coinsHit, obstacleHit, survivors.
    setters. cbn. rewrite orb_false_r, Z.add_0_r, app_nil_r. reflexivity.
  - rewrite <- app_assoc in E. cbn [app] in E. rewrite app_assoc in E.
    rewrite length_app, Nat.add_1_r. cbn [entityLoopFrom length].
    rewrite <- length_app.
    rewrite (entityIter_middle _ _ _ _ _ E). cbv zeta.
    rewrite (IH ((if offscreen_or_collected (settle (scrollSpeed s) (playerY s) ent)
                  then [] else [settle (scrollSpeed s) (playerY s) ent]) ++ suf))
      by (cbn [entities set_gameOver set_score set_entities];
          rewrite <- app_assoc; reflexivity).
    unfold passedOver.
    rewrite coinsHit_snoc, obstacleHit_snoc, survivors_snoc.
    destruct s; setters. unfold settle.
    destruct (hitsCoin _ _) eqn:Hc; setters.
    + rewrite <- !app_assoc. cbn [app]. f_equal.
      * f_equal; first [lia | apply orb_swap].
      * rewrite Nat.add_1_r. reflexivity.
    + rewrite <- !app_assoc, Nat.add_0_r, ?app_nil_r. cbn [app]. f_equal.
      f_equal; first [lia | apply orb_swap].
Qed.

Lemma entityLoop_from n r : entityLoop n r = entityLoopFrom 0 n r.
Proof. revert r. induction n as [|n IH]; intros r; [reflexivity | apply IH]. Qed.

Lemma entityLoop_split a b r :
  entityLoop (a + b) r = entityLoop a (entityLoopFrom a b r).
Proof.
  revert r. induction b as [|b IH]; intros r.
  - rewrite Nat.add_0_r. reflexivity.
  - rewrite Nat.add_succ_r. cbn [entityLoop entityLoopFrom]. apply IH.
Qed.

Lemma entityLoop_prefix pre suf s log :
  entities s = pre ++ suf ->
  entityLoop (length pre) (s, log)
  = (passed pre suf s,
     log ++ scoreCalls (score s) (coinsHit (scrollSpeed s) (playerY s) pre)).
Proof.
  intros E. rewrite entityLoop_from. apply (entityLoopFrom_stretch [] pre suf s log E).
Qed.

Lemma updateEntities_passed s log :
  updateEntities (s, log)
  = (passed (entities s) [] s,
     log ++ scoreCalls (score s) (coinsHit (scrollSpeed s) (playerY s) (entities s))).
Proof.
  unfold updateEntities. cbn [fst]. apply entityLoop_prefix.
  rewrite app_nil_r. reflexivity.
Qed.

Lemma resolveCollisions_closed todo : forall done s log,
  resolveCollisions todo done (s, log)
  = (set_gameOver (gameOver s || existsb (hitsObstacle (playerY s)) todo)
       (set_score (score s + 50 * Z.of_nat (length (List.filter (hitsCoin (playerY s)) todo)))
          (set_entities
             (done ++ map (fun ent => if hitsCoin (playerY s) ent
                                      then set_collected true ent else ent) todo) s)),
     log ++ scoreCalls (score s) (length (List.filter (hitsCoin (playerY s)) todo))).
Proof.
  induction todo as [|ent todo IH]; intros done s log.
  - destruct s. setters. cbn. rewrite orb_false_r, Z.add_0_r, !app_nil_r. reflexivity.
  - cbn [resolveCollisions fst]. unfold hitsCoin, hitsObstacle in *.
    cbn [existsb List.filter map].
    destruct (overlaps (playerY s) ent) eqn:Ho; [destruct ent as [i x y w h [] c col]|];
      unfold modify, call; cbn [fst snd ent_type]; rewrite IH; destruct s; setters; rewrite ?Ho; setters; rewrite <- ?app_assoc;
      cbn [app length scoreCalls]; f_equal; f_equal;
      rewrite ?orb_true_r, ?orb_false_r; try reflexivity; lia.
Qed.

Lemma updateEntities_eq_threePhase r : updateEntities r = threePhase r.
Proof.
  destruct r as [s log]. rewrite updateEntities_passed.
  unfold threePhase, collisionPass, advanceAll, prune, modify. cbn [fst snd].
  rewrite resolveCollisions_closed.
  destruct s. setters. unfold passed, passedOver, survivors, coinsHit, obstacleHit, settle.
  setters. rewrite map_map, app_nil_r. reflexivity.
Qed.

(** C6: the reverse loop that moves, tests and splices one entity at a time,
    and the three-phase pass (advance all, resolve collisions over the whole
    sequence, prune) end in the same entities, score and gameOver flag, from
    every state; they make the same calls as well. *)
Theorem loop_refines_three_phase r :
  entities (updateEntities r).1 = entities (threePhase r).1
  /\ score (updateEntities r).1 = score (threePhase r).1
  /\ gameOver (updateEntities r).1 = gameOver (threePhase r).1
  /\ updateEntities r = threePhase r.
Proof.
  pose proof (updateEntities_eq_threePhase r) as E.
  rewrite E. repeat split.
Qed.

(** ** The frame *)

Lemma updateEntities_run r :
  updateEntities r
  = (passed (entities r.1) [] r.1,
     r.2 ++ scoreCalls (score r.1) (coinsHit (scrollSpeed r.1) (playerY r.1) (entities r.1))).
Proof. destruct r. apply updateEntities_passed. Qed.

Lemma simulate_simulated f random s :
  simulate f random s = simulated f random (prepared s).
Proof.
  unfold simulate. fold (prepared s). rewrite updateEntities_run.
  destruct (prepared s).
  unfold simulated, spawnObstacle, spawnCoin, passiveScore, passed, passedOver, newObstacle,
    newCoin, b2z.
  setters.
  destruct (JS.gt (bass f) _ && _); setters;
  destruct (JS.gt (treble f) _ && _); setters;
  destruct (_ =? 0); setters; rewrite ?app_nil_r, ?Z.add_0_r, <- ?app_assoc; reflexivity.
Qed.

(** The first steps of a frame: the frame counter, the player and the two
    cooldowns are written, nothing else. *)
Ltac fields :=
  cbv [set_playerY set_playerVelY set_isJumping set_scrollSpeed set_entities
       set_nextId set_bassCooldown set_trebleCooldown set_score set_gameOver
       set_gameTime playerY playerVelY isJumping groundY scrollSpeed distance
       entities nextId bassCooldown trebleCooldown score gameOver gameTime].

Lemma physics_eq s :
  physics s
  = set_isJumping (isJumping (physics s))
      (set_playerVelY (playerVelY (physics s)) (set_playerY (playerY (physics s)) s)).
Proof.
  destruct s. unfold physics. fields. destruct (JS.ge _ _); reflexivity.
Qed.

Lemma cooldowns_eq s :
  cooldowns s
  = set_trebleCooldown
      (if 0 <? trebleCooldown s then trebleCooldown s - 1 else trebleCooldown s)
      (set_bassCooldown
         (if 0 <? bassCooldown s then bassCooldown s - 1 else bassCooldown s) s).
Proof.
  destruct s as [? ? ? ? ? ? ? ? bc tc ? ? ?]. unfold cooldowns. cbn [bassCooldown].
  destruct (0 <? bc); fields; destruct (0 <? tc); reflexivity.
Qed.

Lemma physics_gameTime t s : physics (set_gameTime t s) = set_gameTime t (physics s).
Proof.
  destruct s. unfold physics. fields. destruct (JS.ge _ _); reflexivity.
Qed.

Lemma prepared_eq s :
  prepared s
  = set_trebleCooldown
      (if 0 <? trebleCooldown s then trebleCooldown s - 1 else trebleCooldown s)
      (set_bassCooldown
         (if 0 <? bassCooldown s then bassCooldown s - 1 else bassCooldown s)
         (set_gameTime (gameTime s + 1) (physics s))).
Proof.
  unfold prepared. rewrite physics_gameTime, cooldowns_eq.
  rewrite (physics_eq s). reflexivity.
Qed.

Lemma prepared_gameTime s : gameTime (prepared s) = gameTime s + 1.
Proof. rewrite prepared_eq. reflexivity. Qed.

Lemma prepared_config s : config (prepared s) = config (physics s).
Proof. rewrite prepared_eq. reflexivity. Qed.

Lemma prepared_groundY s : groundY (prepared s) = groundY s.
Proof. rewrite prepared_eq, physics_eq. reflexivity. Qed.

Lemma prepared_scrollSpeed s : scrollSpeed (prepared s) = scrollSpeed s.
Proof. rewrite prepared_eq, physics_eq. reflexivity. Qed.

Lemma prepared_entities s : entities (prepared s) = entities s.
Proof. rewrite prepared_eq, physics_eq. reflexivity. Qed.

Lemma prepared_nextId s : nextId (prepared s) = nextId s.
Proof. rewrite prepared_eq, physics_eq. reflexivity. Qed.

Lemma prepared_score s : score (prepared s) = score s.
Proof. rewrite prepared_eq, physics_eq. reflexivity. Qed.

Lemma prepared_gameOver s : gameOver (prepared s) = gameOver s.
Proof. rewrite prepared_eq, physics_eq. reflexivity. Qed.

Lemma prepared_bassCooldown s :
  bassCooldown (prepared s)
  = if 0 <? bassCooldown s then bassCooldown s - 1 else bassCooldown s.
Proof. rewrite prepared_eq. reflexivity. Qed.

Lemma prepared_trebleCooldown s :
  trebleCooldown (prepared s)
  = if 0 <? trebleCooldown s then trebleCooldown s - 1 else trebleCooldown s.
Proof. rewrite prepared_eq. reflexivity. Qed.

Lemma cooldowns_bassCooldown s :
  bassCooldown (cooldowns s)
  = if 0 <? bassCooldown s then bassCooldown s - 1 else bassCooldown s.
Proof. rewrite cooldowns_eq. reflexivity. Qed.

Lemma cooldowns_trebleCooldown s :
  trebleCooldown (cooldowns s)
  = if 0 <? trebleCooldown s then trebleCooldown s - 1 else trebleCooldown s.
Proof. rewrite cooldowns_eq. reflexivity. Qed.

Lemma update_active analyser random s :
  gameOver s = false ->
  update true analyser random s
  = simulated (featuresOf analyser) random
      (prepared (set_scrollSpeed (speedOf analyser s) s)).
Proof.
  intros G. unfold update, audioAnalysis, featuresOf, speedOf.
  destruct analyser as [data|]; rewrite ?G; cbn [andb negb gameOver set_scrollSpeed];
    rewrite ?G; cbn [negb]; rewrite simulate_simulated.
  - reflexivity.
  - destruct s; reflexivity.
Qed.

Lemma update_inactive playing analyser random s :
  playing && negb (gameOver s) = false -> update playing analyser random s = (s, []).
Proof.
  intros H. unfold update, audioAnalysis.
  destruct analyser; rewrite ?H; cbn [andb negb]; rewrite ?H; reflexivity.
Qed.

(** ** Game over freezes the simulation *)

Lemma update_gameOver playing analyser random s :
  gameOver s = true -> update playing analyser random s = (s, []).
Proof.
  intros H. unfold update, audioAnalysis.
  destruct playing, analyser; rewrite ?H; cbn [andb negb]; rewrite ?H; reflexivity.
Qed.

Lemma handleInput_gameOver playing s : gameOver s = true -> handleInput playing s = s.
Proof. intros H. unfold handleInput. rewrite H, orb_true_r. reflexivity. Qed.

Lemma run_frozen evs : forall w,
  gameOver (state w) = true -> noReset (isPlaying w) evs = true ->
  state (exec evs w) = state w /\ concat (run evs w).2 = [].
Proof.
  unfold exec. induction evs as [|ev evs IH]; intros [playing s] G N; cbn in G.
  - split; reflexivity.
  - assert (K : exists p, step ev (mkWorld playing s) = (mkWorld p s, [])
                          /\ noReset p evs = true).
    { destruct ev; cbn in N |- *.
      - apply andb_true_iff in N as [-> N]. eauto.
      - destruct playing; eauto.
      - rewrite handleInput_gameOver by assumption. eauto.
      - rewrite update_gameOver by assumption. eauto. }
    destruct K as (p & E & N').
    cbn [run]. rewrite E.
    destruct (IH (mkWorld p s) G N') as [E1 E2].
    destruct (run evs (mkWorld p s)) as [w2 cs]. cbn in *. auto.
Qed.

(** C4: once [gameOver] is true, no animation frame, jump or pause changes the
    state, so [score], [entities] and [playerY] keep their values, and nothing
    is notified, for as long as the parent does not turn [isPlaying] from
    false to true. *)
Theorem frozen_until_reset evs w :
  gameOver (state w) = true ->
  noReset (isPlaying w) evs = true ->
  score (state (exec evs w)) = score (state w)
  /\ entities (state (exec evs w)) = entities (state w)
  /\ playerY (state (exec evs w)) = playerY (state w)
  /\ state (exec evs w) = state w
  /\ concat (run evs w).2 = [].
Proof.
  intros G N. destruct (run_frozen evs w G N) as [E C].
  rewrite E. auto.
Qed.

Lemma frozen_until_reset_witness :
  gameOver (state crashed) = true
  /\ score (state (exec [Frame (Some loud) 0.7%float; Jump; Pause; Frame None 0%float]
                        crashed)) = score (state crashed).
Proof.
  split; [reflexivity|].
  apply (frozen_until_reset
           [Frame (Some loud) 0.7%float; Jump; Pause; Frame None 0%float] crashed);
    reflexivity.
Defined.

(** ** Reset on play *)

(** C1, as the code has it: a play command met with [gameOver] set or with
    [gameTime = 0] puts [playerY], [playerVelY], [isJumping], [entities],
    [score], [gameOver] and [gameTime] back to their initial values and calls
    [onScoreUpdate(0)]; [groundY], [scrollSpeed], [distance], [nextId],
    [bassCooldown] and [trebleCooldown] keep the values they have. *)
Theorem play_resets_session w :
  isPlaying w = false ->
  gameOver (state w) = true \/ gameTime (state w) = 0 ->
  step Play w
  = (mkWorld true
       (mkState (playerY initialState) (playerVelY initialState)
                (isJumping initialState) (groundY (state w)) (scrollSpeed (state w))
                (distance (state w)) (entities initialState) (nextId (state w))
                (bassCooldown (state w)) (trebleCooldown (state w))
                (score initialState) (gameOver initialState) (gameTime initialState)),
     [onScoreUpdate 0]).
Proof.
  destruct w as [playing s]. cbn [isPlaying state]. intros -> H.
  cbn [step isPlaying state]. unfold resetEffect. cbn [negb].
  replace (gameOver s || (gameTime s =? 0)) with true.
  - destruct s. reflexivity.
  - destruct H as [-> | ->]; [reflexivity | apply eq_sym, orb_true_r].
Qed.

Lemma play_resets_session_witness :
  step Play (exec [Pause] crashed)
  = (mkWorld true
       (mkState 230%float 0%float false 230%float 7%float 0 [] 7 19 4 0 false 0),
     [onScoreUpdate 0]).
Proof.
  apply (play_resets_session (exec [Pause] crashed)).
  - reflexivity.
  - left. reflexivity.
Defined.

(** C1 as stated fails: after a crash, the reset leaves [nextId],
    [bassCooldown], [trebleCooldown] and [scrollSpeed] at values that are not
    the initial ones. *)
Lemma play_keeps_spawner_state :
  gameOver (state (exec [Pause] crashed)) = true
  /\ nextId (state (step Play (exec [Pause] crashed)).1) = 7
  /\ nextId initialState = 0
  /\ bassCooldown (state (step Play (exec [Pause] crashed)).1) = 19
  /\ bassCooldown initialState = 0
  /\ trebleCooldown (state (step Play (exec [Pause] crashed)).1) = 4
  /\ trebleCooldown initialState = 0
  /\ scrollSpeed (state (step Play (exec [Pause] crashed)).1) = 7%float
  /\ scrollSpeed initialState = 4%float.
Proof. vm_compute. repeat split. Qed.

(** ** Frames without an analyser *)

Lemma pushed_app t cs1 cs2 : pushed t (cs1 ++ cs2) = pushed t cs1 ++ pushed t cs2.
Proof. apply omap_app. Qed.

Lemma pushed_scoreCalls t from k : pushed t (scoreCalls from k) = [].
Proof. revert from. induction k as [|k IH]; intros from; [reflexivity | apply IH]. Qed.

Lemma spawns_app t cs1 cs2 : spawns t (cs1 ++ cs2) = spawns t cs1 || spawns t cs2.
Proof. apply existsb_app. Qed.

Lemma spawns_scoreCalls t from k : spawns t (scoreCalls from k) = false.
Proof. revert from. induction k as [|k IH]; intros from; [reflexivity | apply IH]. Qed.

Lemma update_silent random s :
  update true None random s
  = if gameOver s then (s, []) else simulated silence random (prepared s).
Proof.
  unfold update, audioAnalysis. cbn [andb].
  destruct (gameOver s); [reflexivity | apply simulate_simulated].
Qed.

(** C2, as the code has it: in a frame without analyser while playing, bass,
    treble and volume are 0, [scrollSpeed] is not recomputed and no entity is
    pushed; the rest of the frame runs as in any frame of a game that is not
    over: [gameTime] is incremented, gravity and the ground clamp are
    applied, positive cooldowns are decremented, the entities move and the
    score accrues: 50 for each coin the player meets and the passive point
    when the new [gameTime] is a multiple of 10, each reported to the
    parent. *)
Theorem frame_without_analyser random s :
  audioAnalysis true None s = (silence, s)
  /\ silence = mkFeatures 0%float 0%float 0%float
  /\ pushed obstacle (update true None random s).2 = []
  /\ pushed coin (update true None random s).2 = []
  /\ scrollSpeed (update true None random s).1 = scrollSpeed s
  /\ (if gameOver s then update true None random s = (s, [])
      else gameTime (update true None random s).1 = gameTime s + 1
           /\ config (update true None random s).1 = config (physics s)
           /\ bassCooldown (update true None random s).1 = bassCooldown (cooldowns s)
           /\ trebleCooldown (update true None random s).1 = trebleCooldown (cooldowns s)
           /\ entities (update true None random s).1
              = survivors (scrollSpeed s) (playerY (physics s)) (entities s)
           /\ score (update true None random s).1
              = score s
                + 50 * Z.of_nat (coinsHit (scrollSpeed s) (playerY (physics s)) (entities s))
                + b2z (Z.rem (gameTime s + 1) 10 =? 0)
           /\ (update true None random s).2
              = scoreCalls (score s)
                  (coinsHit (scrollSpeed s) (playerY (physics s)) (entities s))
                ++ (if Z.rem (gameTime s + 1) 10 =? 0
                    then [onScoreUpdate (score (update true None random s).1)]
                    else [])).
Proof.
  rewrite update_silent. split; [reflexivity|]. split; [reflexivity|].
  destruct (gameOver s) eqn:G; [repeat split; reflexivity|].
  assert (P : playerY (prepared s) = playerY (physics s)).
  { pose proof (prepared_config s) as C.
    apply (f_equal (fun c => c.1.1)) in C. exact C. }
  unfold simulated, silence. cbn [bass treble]. cbv zeta.
  replace (JS.gt 0%float 155%float) with false by reflexivity.
  replace (JS.gt 0%float 100%float) with false by reflexivity.
  cbn [andb app map fst snd gameTime scrollSpeed bassCooldown trebleCooldown
       entities score].
  rewrite !pushed_app, !pushed_scoreCalls, !app_nil_r.
  rewrite prepared_gameTime, prepared_scrollSpeed, prepared_bassCooldown,
    prepared_trebleCooldown, cooldowns_bassCooldown, cooldowns_trebleCooldown,
    prepared_entities, prepared_score, P, <- prepared_config.
  split; [destruct (Z.rem _ _ =? 0); reflexivity|].
  split; [destruct (Z.rem _ _ =? 0); reflexivity|].
  split; [reflexivity|].
  repeat split; try reflexivity.
  unfold config. cbn [playerY playerVelY isJumping]. rewrite P. reflexivity.
Qed.

(** C2 as stated fails: a frame without analyser still advances the physics
    step and the frame counter. *)
Lemma frame_without_analyser_advances :
  isPlaying airborne = true
  /\ gameOver (state airborne) = false
  /\ gameTime (state airborne) = 1
  /\ gameTime (state (exec [Frame None 0%float] airborne)) = 2
  /\ playerY (state airborne) = 230%float
  /\ playerY (state (exec [Frame None 0%float] airborne)) = 220.6%float
  /\ playerVelY (state airborne) = (-10)%float
  /\ playerVelY (state (exec [Frame None 0%float] airborne)) = (-9.4)%float
  /\ score (state airborne) = 0
  /\ score (state (exec (replicate 9 (Frame None 0%float)) airborne)) = 1.
Proof. vm_compute. repeat split. Qed.

(** ** The sampler on short buffers *)

(** The sampler has no guard of its own.  On a buffer that no analyser
    delivers, an empty one, [bassEnd], [bufferLength - trebleStart] and
    [bufferLength] are all 0 and the three features are [0 / 0]; the bass
    band is empty for every buffer of fewer than seven bins.  This is why
    the statement on the sampler below is about the buffers that the
    component can receive. *)
Lemma analyse_empty_buffer :
  JS.isNaN (bass (analyse [])) = true
  /\ JS.isNaN (treble (analyse [])) = true
  /\ JS.isNaN (volume (analyse [])) = true
  /\ (audioAnalysis true (Some []) initialState).1 <> silence
  /\ JS.isNaN (scrollSpeed (update true (Some []) 0%float initialState).1) = true
  /\ Forall (fun n => JS.isNaN (bass (analyse (replicate n (u8 255)))) = true) (seq 0 7)
  /\ analyse loud = mkFeatures 255%float 255%float 1%float.
Proof.
  split; [reflexivity|]. split; [reflexivity|]. split; [reflexivity|].
  split; [|split; [reflexivity|split; [repeat constructor|reflexivity]]].
  intros H. apply (f_equal (fun p => JS.isNaN (bass p))) in H. discriminate H.
Qed.

(** ** Jump input *)

(** C8, as the code has it: a jump intent sets [playerVelY = -10] and
    [isJumping = true], and touches nothing else, when it arrives while
    playing, before game over and with [isJumping = false]; in every other
    case (already jumping, paused, game over) it changes nothing.  A second
    intent right after the first is therefore a no-op. *)
Theorem jump_intent playing s :
  handleInput playing s
  = (if playing && negb (gameOver s) && negb (isJumping s)
     then set_isJumping true (set_playerVelY (-10)%float s) else s)
  /\ handleInput playing (handleInput playing s) = handleInput playing s.
Proof.
  assert (E : forall s, handleInput playing s
              = if playing && negb (gameOver s) && negb (isJumping s)
                then set_isJumping true (set_playerVelY (-10)%float s) else s).
  { intros s0. unfold handleInput.
    destruct playing, (gameOver s0), (isJumping s0); cbn [negb orb andb];
      try reflexivity; destruct (JS.gt _ _); reflexivity. }
  split; [apply E|]. rewrite !E.
  destruct (playing && negb (gameOver s) && negb (isJumping s)) eqn:C;
    [|rewrite C; reflexivity].
  cbn [isJumping set_isJumping]. rewrite andb_false_r. reflexivity.
Qed.

(** C8 as stated fails: before playback starts, and after game over, a jump
    intent with [isJumping = false] is ignored. *)
Lemma jump_ignored_when_not_playing :
  isJumping (state initialWorld) = false
  /\ playerVelY (state (exec [Jump] initialWorld)) = 0%float
  /\ isJumping (state (exec [Jump] initialWorld)) = false
  /\ isJumping (state crashed) = false
  /\ playerVelY (state (exec [Jump] crashed)) = 0%float
  /\ isJumping (state (exec [Jump] crashed)) = false.
Proof. vm_compute. repeat split. Qed.

(** ** The ground clamp *)

Lemma physics_config s s' :
  config s = config s' -> groundY s = groundY s' ->
  config (physics s) = config (physics s').
Proof.
  destruct s, s'. unfold config. cbn [playerY playerVelY isJumping groundY].
  intros [= -> -> ->] ->. unfold physics. fields.
  destruct (JS.ge _ _); reflexivity.
Qed.

Lemma physics_physicsC s :
  groundY s = groundY initialState -> config (physics s) = physicsC (config s).
Proof.
  intros H. unfold physicsC. apply physics_config; [|exact H].
  destruct s. reflexivity.
Qed.

Lemma handleInput_jumpC playing s :
  config (handleInput playing s)
  = if playing && negb (gameOver s) then jumpC (config s) else config s.
Proof.
  destruct s as [py vy j ? ? ? ? ? ? ? ? go ?].
  destruct playing, go, j;
    cbv [jumpC handleInput ofConfig config initialState negb orb andb fst snd
         set_playerY set_playerVelY set_isJumping playerY playerVelY isJumping
         groundY gameOver];
    repeat match goal with |- context [if ?c then _ else _] => destruct c end;
    reflexivity.
Qed.

Lemma simulated_config f random s1 : config (simulated f random s1).1 = config s1.
Proof. reflexivity. Qed.

Lemma simulated_groundY f random s1 : groundY (simulated f random s1).1 = groundY s1.
Proof. reflexivity. Qed.

Lemma update_config playing analyser random s :
  config (update playing analyser random s).1
  = if playing && negb (gameOver s) then config (physics s) else config s.
Proof.
  destruct (playing && negb (gameOver s)) eqn:A.
  - apply andb_true_iff in A as [-> G]. apply negb_true_iff in G.
    rewrite update_active by exact G. rewrite simulated_config, prepared_config. apply physics_config; destruct s; reflexivity.
  - rewrite update_inactive by exact A. reflexivity.
Qed.

Lemma update_groundY playing analyser random s :
  groundY (update playing analyser random s).1 = groundY s.
Proof.
  destruct (playing && negb (gameOver s)) eqn:A.
  - apply andb_true_iff in A as [-> G]. apply negb_true_iff in G.
    rewrite update_active by exact G. rewrite simulated_groundY, prepared_groundY.
    reflexivity.
  - rewrite update_inactive by exact A. reflexivity.
Qed.

(** Every configuration of the list is at or above the ground, and the list
    is closed under the physics step and under a jump. *)
Ltac find_config := vm_compute; repeat (first [left; reflexivity | right]).

Lemma configs_closed :
  Forall (fun c => JS.le c.1.1 (groundY initialState) = true
                   /\ In (physicsC c) configs /\ In (jumpC c) configs) configs.
Proof.
  unfold configs, jumpArc.
  repeat (apply List.Forall_cons; [split; [reflexivity|split; find_config]|]).
  apply List.Forall_nil.
Qed.

Lemma configs_inv c :
  In c configs ->
  JS.le c.1.1 (groundY initialState) = true
  /\ In (physicsC c) configs /\ In (jumpC c) configs.
Proof.
  intros H. exact (proj1 (List.Forall_forall _ _) configs_closed c H).
Qed.

Lemma playerInv_initial : playerInv initialState.
Proof. split; [reflexivity | left; reflexivity]. Qed.

Lemma playerInv_step ev w : playerInv (state w) -> playerInv (state (step ev w).1).
Proof.
  destruct w as [playing s]. intros [G C]. cbn [state isPlaying].
  destruct ev; cbn [step isPlaying state fst].
  - destruct playing; [split; assumption|]. cbn [state fst].
    unfold resetEffect. cbn [negb].
    destruct (gameOver s || (gameTime s =? 0)); cbn [fst]; [|split; assumption].
    split; [destruct s; exact G | left; reflexivity].
  - destruct playing; split; assumption.
  - split.
    + unfold handleInput.
      repeat match goal with |- context [if ?c then _ else _] => destruct c end;
        destruct s; exact G.
    + rewrite handleInput_jumpC.
      destruct (playing && negb (gameOver s)); [apply configs_inv|]; exact C.
  - split.
    + rewrite update_groundY. exact G.
    + rewrite update_config.
      destruct (playing && negb (gameOver s)); [|exact C].
      rewrite physics_physicsC by exact G. apply configs_inv, C.
Qed.

Lemma playerInv_exec evs : forall w, playerInv (state w) -> playerInv (state (exec evs w)).
Proof.
  unfold exec. induction evs as [|ev evs IH]; intros w H; [exact H|].
  cbn [run]. pose proof (playerInv_step ev w H) as H1.
  destruct (step ev w) as [w1 c]. specialize (IH w1 H1).
  destruct (run evs w1) as [w2 cs]. exact IH.
Qed.

Lemma playerInv_reachable w : reachable w -> playerInv (state w).
Proof. intros [evs <-]. apply playerInv_exec, playerInv_initial. Qed.

Lemma physics_clamp s :
  let y := (playerY s + (playerVelY s + GRAVITY))%float in
  config (physics s)
  = if JS.ge y (groundY s) then (groundY s, 0%float, false)
    else (y, (playerVelY s + GRAVITY)%float, isJumping s).
Proof.
  destruct s. unfold physics, config. fields. destruct (JS.ge _ _); reflexivity.
Qed.

(** C7: in every frame of a running game, in any session, the player is at or
    above the ground line after the physics step, and still at the end of the
    frame; and the step clamps: when the position integrated under gravity is
    at or below the ground line, [playerY] becomes [groundY], [playerVelY]
    becomes 0 and [isJumping] is cleared. *)
Theorem ground_clamp w analyser random :
  reachable w -> isPlaying w = true -> gameOver (state w) = false ->
  JS.le (playerY (physics (state w))) (groundY (physics (state w))) = true
  /\ JS.le (playerY (update true analyser random (state w)).1)
           (groundY (update true analyser random (state w)).1) = true
  /\ (forall s,
        JS.ge (playerY s + (playerVelY s + GRAVITY))%float (groundY s) = true ->
        playerY (physics s) = groundY s
        /\ playerVelY (physics s) = 0%float
        /\ isJumping (physics s) = false).
Proof.
  intros R P G. destruct (playerInv_reachable w R) as [HG HC].
  assert (A : JS.le (playerY (physics (state w))) (groundY (physics (state w))) = true).
  { destruct (configs_inv _ HC) as (_ & HP & _).
    rewrite <- physics_physicsC in HP by exact HG.
    destruct (configs_inv _ HP) as (HL & _).
    rewrite physics_eq. cbn [groundY set_isJumping set_playerVelY set_playerY].
    rewrite HG. exact HL. }
  split; [exact A|]. split.
  - pose proof (update_config true analyser random (state w)) as E.
    rewrite G in E. cbn [andb negb] in E.
    apply (f_equal (fun c => c.1.1)) in E. cbn [config fst] in E.
    rewrite E, update_groundY.
    rewrite physics_eq in A. cbn [groundY set_isJumping set_playerVelY set_playerY] in A.
    exact A.
  - intros s H. pose proof (physics_clamp s) as E. cbv zeta in E.
    rewrite H in E. injection E as -> -> ->. auto.
Qed.

Lemma ground_clamp_witness :
  JS.le (playerY (update true None 0%float (state airborne)).1)
        (groundY (update true None 0%float (state airborne)).1) = true.
Proof.
  apply (ground_clamp airborne None 0%float).
  - exists [Play; Frame None 0%float; Jump]. reflexivity.
  - reflexivity.
  - reflexivity.
Defined.

(** ** Spawning and the cooldowns *)

Lemma spawns_pushes t es :
  spawns t (map entities_push es) = existsb (fun e => EntityType_beq (ent_type e) t) es.
Proof. induction es as [|e es IH]; [reflexivity|]. cbn. rewrite <- IH. reflexivity. Qed.

Lemma simulated_spawns_obstacle f random s1 :
  spawns obstacle (simulated f random s1).2
  = JS.gt (bass f) 155%float && (bassCooldown s1 =? 0).
Proof.
  unfold simulated. cbv zeta. cbn [snd].
  rewrite !spawns_app, spawns_scoreCalls, spawns_pushes, existsb_app.
  destruct (JS.gt (bass f) _ && _), (JS.gt (treble f) _ && _), (Z.rem _ _ =? 0);
    reflexivity.
Qed.

Lemma simulated_spawns_coin f random s1 :
  spawns coin (simulated f random s1).2
  = JS.gt (treble f) 100%float && (trebleCooldown s1 =? 0).
Proof.
  unfold simulated. cbv zeta. cbn [snd].
  rewrite !spawns_app, spawns_scoreCalls, spawns_pushes, existsb_app.
  destruct (JS.gt (bass f) _ && _), (JS.gt (treble f) _ && _), (Z.rem _ _ =? 0);
    reflexivity.
Qed.

Lemma simulated_bassCooldown f random s1 :
  bassCooldown (simulated f random s1).1
  = if spawns obstacle (simulated f random s1).2 then 25 else bassCooldown s1.
Proof. rewrite simulated_spawns_obstacle. reflexivity. Qed.

Lemma simulated_trebleCooldown f random s1 :
  trebleCooldown (simulated f random s1).1
  = if spawns coin (simulated f random s1).2 then 15 else trebleCooldown s1.
Proof. rewrite simulated_spawns_coin. reflexivity. Qed.

(** The rule of the obstacle cooldown in a frame of a running game: a
    positive cooldown loses 1, a spawn needs the result to be 0 and sets it
    to 25. *)
Lemma bassCooldown_rule analyser random s :
  gameOver s = false ->
  let c := if 0 <? bassCooldown s then bassCooldown s - 1 else bassCooldown s in
  spawns obstacle (update true analyser random s).2
  = JS.gt (bass (featuresOf analyser)) 155%float && (c =? 0)
  /\ bassCooldown (update true analyser random s).1
     = if spawns obstacle (update true analyser random s).2 then 25 else c.
Proof.
  intros G c. rewrite update_active by exact G.
  rewrite simulated_bassCooldown, simulated_spawns_obstacle, prepared_bassCooldown.
  split; reflexivity.
Qed.

Lemma trebleCooldown_rule analyser random s :
  gameOver s = false ->
  let c := if 0 <? trebleCooldown s then trebleCooldown s - 1 else trebleCooldown s in
  spawns coin (update true analyser random s).2
  = JS.gt (treble (featuresOf analyser)) 100%float && (c =? 0)
  /\ trebleCooldown (update true analyser random s).1
     = if spawns coin (update true analyser random s).2 then 15 else c.
Proof.
  intros G c. rewrite update_active by exact G.
  rewrite simulated_trebleCooldown, simulated_spawns_coin, prepared_trebleCooldown.
  split; reflexivity.
Qed.

Lemma handleInput_cooldowns playing s :
  bassCooldown (handleInput playing s) = bassCooldown s
  /\ trebleCooldown (handleInput playing s) = trebleCooldown s.
Proof.
  unfold handleInput.
  repeat match goal with |- context [if ?c then _ else _] => destruct c end;
    split; reflexivity.
Qed.

Lemma resetEffect_cooldowns playing s :
  bassCooldown (resetEffect playing s).1 = bassCooldown s
  /\ trebleCooldown (resetEffect playing s).1 = trebleCooldown s
  /\ spawns obstacle (resetEffect playing s).2 = false
  /\ spawns coin (resetEffect playing s).2 = false.
Proof.
  unfold resetEffect.
  repeat match goal with |- context [if ?c then _ else _] => destruct c end;
    repeat split; reflexivity.
Qed.

Lemma step_spawns_obstacle ev w :
  spawns obstacle (step ev w).2 = true ->
  isFrame ev && active w = true
  /\ bassCooldown (state w) <= 1
  /\ bassCooldown (state (step ev w).1) = 25.
Proof.
  destruct w as [playing s]. unfold active.
  destruct ev as [| | |analyser random]; cbn [step isPlaying state fst snd isFrame].
  - destruct playing; cbn [snd]; [discriminate|].
    destruct (resetEffect_cooldowns true s) as (_ & _ & -> & _). discriminate.
  - destruct playing; discriminate.
  - discriminate.
  - destruct (playing && negb (gameOver s)) eqn:A.
    + apply andb_true_iff in A as [-> G]. apply negb_true_iff in G.
      destruct (bassCooldown_rule analyser random s G) as [E1 E2].
      rewrite E2, E1. intros H. rewrite H.
      apply andb_true_iff in H as [_ H]. apply Z.eqb_eq in H.
      split; [reflexivity|split; [|reflexivity]].
      revert H. destruct (0 <? bassCooldown s); lia.
    + rewrite update_inactive by exact A. discriminate.
Qed.

Lemma step_spawns_coin ev w :
  spawns coin (step ev w).2 = true ->
  isFrame ev && active w = true
  /\ trebleCooldown (state w) <= 1
  /\ trebleCooldown (state (step ev w).1) = 15.
Proof.
  destruct w as [playing s]. unfold active.
  destruct ev as [| | |analyser random]; cbn [step isPlaying state fst snd isFrame].
  - destruct playing; cbn [snd]; [discriminate|].
    destruct (resetEffect_cooldowns true s) as (_ & _ & _ & ->). discriminate.
  - destruct playing; discriminate.
  - discriminate.
  - destruct (playing && negb (gameOver s)) eqn:A.
    + apply andb_true_iff in A as [-> G]. apply negb_true_iff in G.
      destruct (trebleCooldown_rule analyser random s G) as [E1 E2].
      rewrite E2, E1. intros H. rewrite H.
      apply andb_true_iff in H as [_ H]. apply Z.eqb_eq in H.
      split; [reflexivity|split; [|reflexivity]].
      revert H. destruct (0 <? trebleCooldown s); lia.
    + rewrite update_inactive by exact A. discriminate.
Qed.

(** Only an active frame lowers a cooldown, and by 1 at most. *)
Lemma step_bassCooldown ev w :
  bassCooldown (state w) - (if isFrame ev && active w then 1 else 0)
  <= bassCooldown (state (step ev w).1).
Proof.
  destruct (spawns obstacle (step ev w).2) eqn:S.
  - destruct (step_spawns_obstacle ev w S) as (-> & L & ->). lia.
  - destruct w as [playing s]. revert S. unfold active.
    destruct ev as [| | |analyser random]; cbn [step isPlaying state fst snd isFrame andb].
    + destruct playing; cbn [state fst]; [lia|].
      destruct (resetEffect_cooldowns true s) as (-> & _). lia.
    + destruct playing; cbn [state fst resetEffect negb]; lia.
    + destruct (handleInput_cooldowns playing s) as (-> & _). lia.
    + destruct (playing && negb (gameOver s)) eqn:A.
      * apply andb_true_iff in A as [-> G]. apply negb_true_iff in G.
        destruct (bassCooldown_rule analyser random s G) as [_ E2].
        rewrite E2. intros ->. destruct (0 <? bassCooldown s); lia.
      * rewrite update_inactive by exact A. cbn [fst]. lia.
Qed.

Lemma step_trebleCooldown ev w :
  trebleCooldown (state w) - (if isFrame ev && active w then 1 else 0)
  <= trebleCooldown (state (step ev w).1).
Proof.
  destruct (spawns coin (step ev w).2) eqn:S.
  - destruct (step_spawns_coin ev w S) as (-> & L & ->). lia.
  - destruct w as [playing s]. revert S. unfold active.
    destruct ev as [| | |analyser random]; cbn [step isPlaying state fst snd isFrame andb].
    + destruct playing; cbn [state fst]; [lia|].
      destruct (resetEffect_cooldowns true s) as (_ & -> & _). lia.
    + destruct playing; cbn [state fst resetEffect negb]; lia.
    + destruct (handleInput_cooldowns playing s) as (_ & ->). lia.
    + destruct (playing && negb (gameOver s)) eqn:A.
      * apply andb_true_iff in A as [-> G]. apply negb_true_iff in G.
        destruct (trebleCooldown_rule analyser random s G) as [_ E2].
        rewrite E2. intros ->. destruct (0 <? trebleCooldown s); lia.
      * rewrite update_inactive by exact A. cbn [fst]. lia.
Qed.

Lemma exec_cons ev evs w : exec (ev :: evs) w = exec evs (step ev w).1.
Proof.
  unfold exec. cbn [run]. destruct (step ev w) as [w1 c]. cbn [fst].
  destruct (run evs w1) as [w2 cs]. reflexivity.
Qed.

Lemma frames_cons ev evs :
  frames (ev :: evs) = ((if isFrame ev then 1 else 0) + frames evs)%nat.
Proof. unfold frames. cbn [List.filter]. destruct (isFrame ev); reflexivity. Qed.

(** The active frames are among the frames. *)
Lemma activeFrames_frames evs : forall w, (activeFrames evs w <= frames evs)%nat.
Proof.
  induction evs as [|ev evs IH]; intros w; [reflexivity|].
  cbn [activeFrames]. rewrite frames_cons. specialize (IH (step ev w).1).
  destruct (isFrame ev), (active w); cbn [andb]; lia.
Qed.

(** The spacing argument, for any entity type with its cooldown. *)
Section Spacing.

Variable t : EntityType.
Variable cooldown : GameState -> Z.
Variable period : Z.

Hypothesis step_spawns : forall ev w,
  spawns t (step ev w).2 = true ->
  isFrame ev && active w = true
  /\ cooldown (state w) <= 1 /\ cooldown (state (step ev w).1) = period.

Hypothesis step_cooldown : forall ev w,
  cooldown (state w) - (if isFrame ev && active w then 1 else 0)
  <= cooldown (state (step ev w).1).

(** A spawn at event [j] needs as many active frames as the cooldown still
    holds. *)
Lemma first_spawn evs : forall w j cs,
  (run evs w).2 !! j = Some cs -> spawns t cs = true ->
  cooldown (state w) <= Z.of_nat (activeFrames (take (S j) evs) w).
Proof.
  induction evs as [|ev evs IH]; intros w j cs L S; [discriminate|].
  cbn [run] in L. pose proof (step_spawns ev w) as HS.
  pose proof (step_cooldown ev w) as HC.
  cbn [take activeFrames]. specialize (IH (step ev w).1).
  destruct (step ev w) as [w1 c]. cbn [fst snd] in *.
  destruct (run evs w1) as [w2 rest]. cbn [fst snd] in *.
  destruct j as [|j]; cbn [lookup list_lookup] in L.
  - injection L as ->. destruct (HS S) as (-> & L1 & _). lia.
  - specialize (IH j cs L S). destruct (isFrame ev && active w); lia.
Qed.

Lemma spawn_gap evs : forall w i j ci cj,
  (i < j)%nat ->
  (run evs w).2 !! i = Some ci -> (run evs w).2 !! j = Some cj ->
  spawns t ci = true -> spawns t cj = true ->
  period <= Z.of_nat (activeFrames (take (j - i) (drop (S i) evs))
                        (exec (take (S i) evs) w)).
Proof.
  induction evs as [|ev evs IH]; intros w i j ci cj Lt Li Lj Si Sj; [discriminate|].
  cbn [run] in Li, Lj. pose proof (step_spawns ev w) as HS.
  pose proof (first_spawn evs) as FS.
  cbn [take]. rewrite exec_cons.
  specialize (IH (step ev w).1). specialize (FS (step ev w).1).
  destruct (step ev w) as [w1 c]. cbn [fst snd] in *.
  destruct (run evs w1) as [w2 rest]. cbn [fst snd] in *.
  destruct j as [|j]; [lia|]. cbn [lookup list_lookup] in Lj.
  destruct i as [|i]; cbn [lookup list_lookup] in Li.
  - injection Li as ->. destruct (HS Si) as (_ & _ & <-).
    cbn [drop take]. rewrite Nat.sub_0_r. exact (FS j cj Lj Sj).
  - cbn [drop]. replace (S j - S i)%nat with (j - i)%nat by lia.
    apply (IH i j ci cj); [lia | assumption..].
Qed.

End Spacing.

(** C5: in any session, two animation frames that both spawn an obstacle are
    at least 25 active frames apart, and two that both spawn a coin at least
    15: the events after the first spawn, up to and including the second,
    hold that many frames that find the game playing and not over, the only
    frames in which the cooldowns are decremented.  Frames of a paused or
    finished game in between do not count; counting them too can only
    lengthen the distance. *)
Theorem spawn_spacing evs i j ci cj :
  (i < j)%nat ->
  (run evs initialWorld).2 !! i = Some ci ->
  (run evs initialWorld).2 !! j = Some cj ->
  let between := take (j - i) (drop (S i) evs) in
  let w := exec (take (S i) evs) initialWorld in
  (activeFrames between w <= frames between)%nat
  /\ (spawns obstacle ci = true -> spawns obstacle cj = true ->
        (25 <= activeFrames between w)%nat)
  /\ (spawns coin ci = true -> spawns coin cj = true ->
        (15 <= activeFrames between w)%nat).
Proof.
  intros Lt Li Lj between w.
  split; [apply activeFrames_frames|]. split; intros Si Sj.
  - pose proof (spawn_gap obstacle bassCooldown 25 step_spawns_obstacle
                  step_bassCooldown evs initialWorld i j ci cj Lt Li Lj Si Sj).
    unfold between, w. lia.
  - pose proof (spawn_gap coin trebleCooldown 15 step_spawns_coin
                  step_trebleCooldown evs initialWorld i j ci cj Lt Li Lj Si Sj).
    unfold between, w. lia.
Qed.

Lemma spawn_spacing_witness :
  frames (take (33 - 1) (drop 2 interrupted)) = 30%nat
  /\ (25 <= activeFrames (take (33 - 1) (drop 2 interrupted))
              (exec (take 2 interrupted) initialWorld))%nat.
Proof.
  pose (ci := default [] ((run interrupted initialWorld).2 !! 1%nat)).
  pose (cj := default [] ((run interrupted initialWorld).2 !! 33%nat)).
  assert (Lt : (1 < 33)%nat) by (repeat constructor).
  assert (Li : (run interrupted initialWorld).2 !! 1%nat = Some ci)
    by (vm_compute; reflexivity).
  assert (Lj : (run interrupted initialWorld).2 !! 33%nat = Some cj)
    by (vm_compute; reflexivity).
  assert (Si : spawns obstacle ci = true) by (vm_compute; reflexivity).
  assert (Sj : spawns obstacle cj = true) by (vm_compute; reflexivity).
  split; [vm_compute; reflexivity|].
  exact (proj1 (proj2 (spawn_spacing interrupted 1 33 ci cj Lt Li Lj)) Si Sj).
Defined.

(** ** Identifiers *)

Lemma settle_id speed py ent : ent_id (settle speed py ent) = ent_id ent.
Proof. unfold settle. destruct (hitsCoin _ _); reflexivity. Qed.

Lemma survivors_ids n speed py es :
  List.Forall (fun ent => ent_id ent < n) es ->
  List.Forall (fun ent => ent_id ent < n) (survivors speed py es).
Proof.
  intros H. apply List.Forall_forall. intros ent I.
  unfold survivors in I. apply List.filter_In in I as [I _].
  apply List.in_map_iff in I as (ent0 & <- & I). rewrite settle_id.
  exact (proj1 (List.Forall_forall _ _) H ent0 I).
Qed.

Lemma simulated_idsBelow f random s1 : idsBelow s1 -> idsBelow (simulated f random s1).1.
Proof.
  unfold idsBelow, simulated. cbv zeta. cbn [fst entities nextId]. intros H.
  apply survivors_ids. apply List.Forall_app. split.
  - eapply List.Forall_impl; [|exact H]. cbn beta. intros ent L.
    destruct (JS.gt (bass f) _ && _), (JS.gt (treble f) _ && _); cbn [b2z]; lia.
  - destruct (JS.gt (bass f) _ && _), (JS.gt (treble f) _ && _);
      cbn [b2z app];
      repeat (apply List.Forall_cons;
              [unfold newObstacle, newCoin; cbn [ent_id nextId set_nextId]; lia|]);
      apply List.Forall_nil.
Qed.

Lemma idsBelow_step ev w : idsBelow (state w) -> idsBelow (state (step ev w).1).
Proof.
  destruct w as [playing s]. cbn [state isPlaying]. intros H.
  destruct ev as [| | |analyser random]; cbn [step isPlaying state fst].
  - destruct playing; [exact H|]. cbn [state fst]. unfold resetEffect. cbn [negb].
    destruct (gameOver s || (gameTime s =? 0)); [apply List.Forall_nil | exact H].
  - destruct playing; exact H.
  - unfold handleInput.
    repeat match goal with |- context [if ?c then _ else _] => destruct c end;
      exact H.
  - destruct (playing && negb (gameOver s)) eqn:A.
    + apply andb_true_iff in A as [-> G]. apply negb_true_iff in G.
      rewrite update_active by exact G. apply simulated_idsBelow.
      unfold idsBelow. rewrite prepared_entities, prepared_nextId. exact H.
    + rewrite update_inactive by exact A. exact H.
Qed.

Lemma idsBelow_reachable w : reachable w -> idsBelow (state w).
Proof.
  intros [evs <-]. unfold exec.
  assert (K : forall w0, idsBelow (state w0) -> idsBelow (state (run evs w0).1)).
  { induction evs as [|ev evs IH]; intros w0 H; [exact H|].
    cbn [run]. pose proof (idsBelow_step ev w0 H) as H1.
    destruct (step ev w0) as [w1 c]. specialize (IH w1 H1).
    destruct (run evs w1) as [w2 cs]. exact IH. }
  apply K. apply List.Forall_nil.
Qed.

(** ** Obstacle spawn *)

Lemma pushed_pushes t es :
  pushed t (map entities_push es)
  = List.filter (fun e => EntityType_beq (ent_type e) t) es.
Proof.
  induction es as [|e es IH]; [reflexivity|].
  cbn [map List.filter]. unfold pushed in *. cbn [omap list_omap].
  rewrite IH. destruct (EntityType_beq (ent_type e) t); reflexivity.
Qed.

Lemma simulated_pushed_obstacle f random s1 :
  pushed obstacle (simulated f random s1).2
  = if JS.gt (bass f) 155%float && (bassCooldown s1 =? 0)
    then [newObstacle s1] else [].
Proof.
  unfold simulated. cbv zeta. cbn [snd].
  rewrite !pushed_app, pushed_scoreCalls, pushed_pushes, List.filter_app.
  destruct (JS.gt (bass f) _ && _), (JS.gt (treble f) _ && _), (Z.rem _ _ =? 0);
    reflexivity.
Qed.

(** C9: in a frame of a running game whose bass is above 155 and whose obstacle
    cooldown is 0 where the spawn test reads it, that is after the decrement
    of the same frame (so the frame starts with the cooldown at 0 or at 1),
    exactly one obstacle is pushed, at the end of the sequence: [x = 530],
    [y = groundY - 30], 24 wide, 30 high, with [nextId] as its id, which no
    entity of the sequence has and which is not handed out again;
    [bassCooldown] is 25 when the frame ends.  (The entity pass of the same
    frame then moves the new obstacle with the others.) *)
Theorem obstacle_spawn w data random :
  reachable w -> isPlaying w = true -> gameOver (state w) = false ->
  bassCooldown (cooldowns (state w)) = 0 ->
  JS.gt (bass (analyse data)) 155%float = true ->
  let s := state w in
  let r := update true (Some data) random s in
  let e := mkEntity (nextId s) 530%float (groundY s - 30)%float 24%float 30%float
                    obstacle "#ff4081" false in
  pushed obstacle r.2 = [e]
  /\ (spawnObstacle (analyse data)
        (prepared (set_scrollSpeed (speedOf (Some data) s) s), [])).2 = [entities_push e]
  /\ entities (spawnObstacle (analyse data)
                 (prepared (set_scrollSpeed (speedOf (Some data) s) s), [])).1
     = entities s ++ [e]
  /\ bassCooldown r.1 = 25
  /\ List.Forall (fun ent => ent_id ent <> ent_id e) (entities s)
  /\ ent_id e < nextId r.1
  /\ exists coins,
       List.Forall (fun c => ent_type c = coin) coins
       /\ entities r.1
          = survivors (speedOf (Some data) s) (playerY r.1) (entities s ++ e :: coins).
Proof.
  intros R _ G C B s r e.
  pose proof (idsBelow_reachable w R) as I. fold s in I, G, C.
  set (s1 := prepared (set_scrollSpeed (speedOf (Some data) s) s)).
  assert (E1 : entities s1 = entities s)
    by (unfold s1; rewrite prepared_entities; reflexivity).
  assert (N1 : nextId s1 = nextId s)
    by (unfold s1; rewrite prepared_nextId; reflexivity).
  assert (G1 : groundY s1 = groundY s)
    by (unfold s1; rewrite prepared_groundY; reflexivity).
  assert (C1 : bassCooldown s1 = 0).
  { unfold s1. rewrite prepared_bassCooldown. cbn [bassCooldown set_scrollSpeed].
    rewrite cooldowns_bassCooldown in C. exact C. }
  assert (O : newObstacle s1 = e).
  { unfold newObstacle, e. rewrite N1, G1. reflexivity. }
  assert (U : r = simulated (analyse data) random s1) by (apply update_active, G).
  split; [|split; [|split; [|split; [|split; [|split]]]]].
  - rewrite U, simulated_pushed_obstacle, B, C1, O. reflexivity.
  - unfold spawnObstacle. cbn [fst]. rewrite B, C1. cbn [andb Z.eqb].
    unfold call, modify. cbn [fst snd app]. rewrite O. reflexivity.
  - unfold spawnObstacle. cbn [fst]. rewrite B, C1. cbn [andb Z.eqb].
    unfold call, modify. cbn [fst snd entities set_bassCooldown set_entities].
    rewrite O, E1. reflexivity.
  - rewrite U, simulated_bassCooldown, simulated_spawns_obstacle, B, C1. reflexivity.
  - eapply List.Forall_impl; [|exact I]. cbn beta. intros ent L. cbn [ent_id e]. lia.
  - rewrite U. unfold simulated. cbv zeta. cbn [fst nextId ent_id e].
    rewrite B, C1, N1. cbn [andb Z.eqb b2z].
    destruct (JS.gt _ _ && _); cbn [b2z]; lia.
  - rewrite U. unfold simulated. cbv zeta. cbn [fst entities playerY].
    rewrite B, C1, E1. cbn [andb Z.eqb b2z]. rewrite O.
    assert (V : scrollSpeed s1 = speedOf (Some data) s)
      by (unfold s1; rewrite prepared_scrollSpeed; reflexivity).
    rewrite V.
    destruct (JS.gt (treble (analyse data)) _ && _).
    + eexists [_]. split; [|reflexivity].
      apply List.Forall_cons; [reflexivity | apply List.Forall_nil].
    + exists []. split; [apply List.Forall_nil | reflexivity].
Qed.

Lemma obstacle_spawn_witness :
  bassCooldown (state cooling) = 1
  /\ nextId (state cooling) = 3
  /\ groundY (state cooling) = 230%float
  /\ pushed obstacle (update true (Some loud) 0.7%float (state cooling)).2
     = [mkEntity (nextId (state cooling)) 530%float (groundY (state cooling) - 30)%float
                 24%float 30%float obstacle "#ff4081" false].
Proof.
  assert (R : reachable cooling) by (eexists; unfold cooling; reflexivity).
  assert (P : isPlaying cooling = true) by (vm_compute; reflexivity).
  assert (G : gameOver (state cooling) = false) by (vm_compute; reflexivity).
  assert (C : bassCooldown (cooldowns (state cooling)) = 0) by (vm_compute; reflexivity).
  assert (B : JS.gt (bass (analyse loud)) 155%float = true) by (vm_compute; reflexivity).
  split; [vm_compute; reflexivity|]. split; [vm_compute; reflexivity|].
  split; [vm_compute; reflexivity|].
  exact (proj1 (obstacle_spawn cooling loud 0.7%float R P G C B)).
Defined.

(** ** Game over in the middle of the entity pass *)

Lemma entityLoopFrom_low a k r :
  entityLoopFrom a (S k) r = entityIter a (entityLoopFrom (S a) k r).
Proof.
  revert r. induction k as [|k IH]; intros r.
  - cbn [entityLoopFrom]. rewrite Nat.add_0_r. reflexivity.
  - change (entityLoopFrom a (S (S k)) r)
      with (entityLoopFrom a (S k) (entityIter (a + S k) r)).
    rewrite IH. cbn [entityLoopFrom]. rewrite Nat.add_succ_r. reflexivity.
Qed.

Lemma obstacleHit_In speed py es o :
  In o es -> hitsObstacle py (advance speed o) = true -> obstacleHit speed py es = true.
Proof.
  intros I H. unfold obstacleHit. apply List.existsb_exists.
  exists (advance speed o). split; [apply List.in_map, I | exact H].
Qed.

Lemma coinsHit_In speed py es c :
  In c es -> hitsCoin py (advance speed c) = true -> (1 <= coinsHit speed py es)%nat.
Proof.
  intros I H. unfold coinsHit.
  assert (K : In (advance speed c) (List.filter (hitsCoin py) (map (advance speed) es))).
  { apply List.filter_In. split; [apply List.in_map, I | exact H]. }
  destruct (List.filter _ _); [destruct K | cbn [length]; lia].
Qed.

(** C10: the pass does not stop at game over.  With a coin [c] in front of an
    obstacle [o] in the sequence, both overlapped by the player once moved:
    when the loop, coming from the end, reaches the coin, [gameOver] is
    already true and the coin is still as it was; the iteration on the coin
    adds 50 to the score, calls [onScoreUpdate] with the new score and
    splices the coin out; the loop then goes on with the entities before
    it. *)
Theorem coin_after_game_over pre c mid o post s log :
  entities s = pre ++ c :: mid ++ o :: post ->
  hitsCoin (playerY s) (advance (scrollSpeed s) c) = true ->
  hitsObstacle (playerY s) (advance (scrollSpeed s) o) = true ->
  let r1 := entityLoopFrom (S (length pre)) (length (mid ++ o :: post)) (s, log) in
  let r2 := entityIter (length pre) r1 in
  gameOver r1.1 = true
  /\ entities r1.1 !! length pre = Some c
  /\ score r2.1 = score r1.1 + 50
  /\ r2.2 = r1.2 ++ [onScoreUpdate (score r1.1 + 50)]
  /\ gameOver r2.1 = true
  /\ entities r2.1 = delete (length pre) (entities r1.1)
  /\ updateEntities (s, log) = entityLoop (length pre) r2
  /\ gameOver (updateEntities (s, log)).1 = true
  /\ score s + 50 <= score (updateEntities (s, log)).1.
Proof.
  intros E HC HO r1 r2.
  set (seg := mid ++ o :: post) in *.
  assert (E1 : entities s = (pre ++ [c]) ++ seg ++ []).
  { rewrite E, app_nil_r, <- app_assoc. reflexivity. }
  assert (R1 : r1 = (passedOver (pre ++ [c]) seg [] s,
                     log ++ scoreCalls (score s)
                              (coinsHit (scrollSpeed s) (playerY s) seg))).
  { unfold r1. rewrite <- (entityLoopFrom_stretch (pre ++ [c]) seg [] s log E1).
    rewrite length_app, Nat.add_1_r. reflexivity. }
  assert (HS : obstacleHit (scrollSpeed s) (playerY s) seg = true).
  { apply (obstacleHit_In _ _ _ o); [|exact HO]. unfold seg. apply in_elt. }
  assert (G1 : gameOver r1.1 = true).
  { rewrite R1. cbn [fst passedOver gameOver set_gameOver]. rewrite HS. apply orb_true_r. }
  assert (L1 : entities r1.1
               = pre ++ c :: (survivors (scrollSpeed s) (playerY s) seg ++ [])).
  { rewrite R1. cbn [fst passedOver entities set_gameOver set_score set_entities].
    rewrite <- app_assoc. reflexivity. }
  assert (V1 : scrollSpeed r1.1 = scrollSpeed s) by (rewrite R1; reflexivity).
  assert (P1 : playerY r1.1 = playerY s) by (rewrite R1; reflexivity).
  assert (R2 : r2 = (set_gameOver true
                       (set_score (score r1.1 + 50)
                          (set_entities (delete (length pre) (entities r1.1)) r1.1)),
                     r1.2 ++ [onScoreUpdate (score r1.1 + 50)])).
  { unfold r2. destruct r1 as [s1 log1]. cbn [fst snd] in *.
    rewrite (entityIter_middle _ _ _ _ _ L1). cbv zeta.
    rewrite V1, P1, HC, G1. unfold settle. rewrite HC.
    unfold offscreen_or_collected. cbn [ent_collected set_collected].
    rewrite orb_true_r, L1, delete_middle_ent. reflexivity. }
  assert (U : updateEntities (s, log) = entityLoop (length pre) r2).
  { assert (Len : length (entities s) = (length pre + S (length seg))%nat)
      by (rewrite E, length_app; reflexivity).
    unfold updateEntities. cbn [fst].
    rewrite Len, entityLoop_split, entityLoopFrom_low. reflexivity. }
  split; [exact G1|]. split; [rewrite L1; apply lookup_middle|].
  split; [rewrite R2; reflexivity|]. split; [rewrite R2; reflexivity|].
  split; [rewrite R2; reflexivity|]. split; [rewrite R2; reflexivity|].
  split; [exact U|].
  rewrite updateEntities_passed. cbn [fst passed passedOver gameOver score set_gameOver
                                       set_score].
  split.
  - rewrite (obstacleHit_In _ _ _ o); [apply orb_true_r | | exact HO].
    rewrite E. apply in_or_app. right. right. apply in_elt.
  - assert (K : (1 <= coinsHit (scrollSpeed s) (playerY s) (entities s))%nat).
    { apply (coinsHit_In _ _ _ c); [|exact HC]. rewrite E. apply in_elt. }
    lia.
Qed.

(** In the session [approach] the next frame ends the game on the obstacle and
    still collects the coin: the score goes from 13 to 63 and the frame's only
    call is [onScoreUpdate(63)]. *)
Lemma coin_after_game_over_witness :
  gameOver (state (exec approach initialWorld)) = false
  /\ score (state (exec approach initialWorld)) = 13
  /\ gameOver (entityLoopFrom 1 1 (beforeCollision, [])).1 = true
  /\ (entityIter 0 (entityLoopFrom 1 1 (beforeCollision, []))).2 = [onScoreUpdate 63]
  /\ (step (Frame (Some quiet) 0%float) (exec approach initialWorld)).2
     = [onScoreUpdate 63]
  /\ gameOver (state (step (Frame (Some quiet) 0%float)
                            (exec approach initialWorld)).1) = true.
Proof.
  pose (c := mkEntity 0 132.25%float 150%float 20%float 20%float coin "#ffff00" false).
  pose (o := mkEntity 1 136.5%float 200%float 24%float 30%float obstacle "#ff4081" false).
  assert (E : entities beforeCollision = [] ++ c :: [] ++ o :: [])
    by (vm_compute; reflexivity).
  assert (HC : hitsCoin (playerY beforeCollision)
                 (advance (scrollSpeed beforeCollision) c) = true)
    by (vm_compute; reflexivity).
  assert (HO : hitsObstacle (playerY beforeCollision)
                 (advance (scrollSpeed beforeCollision) o) = true)
    by (vm_compute; reflexivity).
  pose proof (coin_after_game_over [] c [] o [] beforeCollision [] E HC HO) as K.
  cbv zeta in K. destruct K as (G1 & _ & S2 & L2 & _).
  split; [vm_compute; reflexivity|]. split; [vm_compute; reflexivity|].
  split; [exact G1|]. split; [|split; vm_compute; reflexivity].
  etransitivity; [exact L2|]. vm_compute. reflexivity.
Defined.

(** * Further properties of the game loop *)

(** ** Invariants of a session *)

Lemma step_preserves (P : GameState -> Prop) :
  (forall s, P s -> P (resetEffect true s).1) ->
  (forall playing s, P s -> P (handleInput playing s)) ->
  (forall analyser random s, gameOver s = false -> P s ->
     P (update true analyser random s).1) ->
  forall ev w, P (state w) -> P (state (step ev w).1).
Proof.
  intros HR HJ HU ev [playing s] H. cbn [state] in H.
  destruct ev as [| | |analyser random]; cbn [step isPlaying state fst].
  - destruct playing; [exact H | apply HR, H].
  - destruct playing; exact H.
  - apply HJ, H.
  - destruct (playing && negb (gameOver s)) eqn:A.
    + apply andb_true_iff in A as [-> G]. apply negb_true_iff in G. apply HU; assumption.
    + rewrite update_inactive by exact A. exact H.
Qed.

Lemma exec_preserves (P : GameState -> Prop) :
  (forall ev w, P (state w) -> P (state (step ev w).1)) ->
  forall evs w, P (state w) -> P (state (exec evs w)).
Proof.
  intros HS evs. unfold exec. induction evs as [|ev evs IH]; intros w H; [exact H|].
  cbn [run]. pose proof (HS ev w H) as H1.
  destruct (step ev w) as [w1 c]. specialize (IH w1 H1).
  destruct (run evs w1) as [w2 cs]. exact IH.
Qed.

Lemma reachable_invariant (P : GameState -> Prop) :
  P initialState ->
  (forall s, P s -> P (resetEffect true s).1) ->
  (forall playing s, P s -> P (handleInput playing s)) ->
  (forall analyser random s, gameOver s = false -> P s ->
     P (update true analyser random s).1) ->
  forall w, reachable w -> P (state w).
Proof.
  intros H0 HR HJ HU w [evs <-].
  apply exec_preserves; [apply step_preserves; assumption | exact H0].
Qed.

(** What the reset and the jump leave alone. *)
Lemma resetEffect_cases s :
  (resetEffect true s).1 = s
  \/ (resetEffect true s).1
     = mkState (playerY initialState) 0%float false (groundY s) (scrollSpeed s)
               (distance s) [] (nextId s) (bassCooldown s) (trebleCooldown s) 0 false 0.
Proof.
  unfold resetEffect. cbn [negb].
  destruct (gameOver s || (gameTime s =? 0)); [right; destruct s; reflexivity | left; reflexivity].
Qed.

Lemma handleInput_cases playing s :
  handleInput playing s = s
  \/ handleInput playing s = set_isJumping true (set_playerVelY JUMP_FORCE s).
Proof.
  unfold handleInput.
  repeat match goal with |- context [if ?c then _ else _] => destruct c end; auto.
Qed.

(** X1: resetting twice is resetting once: the second run of the effect finds
    the state the first one left, writes the same values and makes the same
    call. *)
Theorem reset_idempotent s :
  resetEffect true (resetEffect true s).1 = resetEffect true s.
Proof.
  destruct s as [py vy j gy v d es n bc tc sc go gt].
  unfold resetEffect. cbn [negb gameOver gameTime].
  destruct (go || (gt =? 0)) eqn:C; cbn [fst]; fields; cbn [orb Z.eqb fst];
    rewrite ?C, ?orb_true_r; reflexivity.
Qed.

(** X2: in every session the obstacle cooldown stays between 0 and 25 and
    the coin cooldown between 0 and 15. *)
Theorem cooldowns_bounded w :
  reachable w ->
  0 <= bassCooldown (state w) <= 25 /\ 0 <= trebleCooldown (state w) <= 15.
Proof.
  revert w.
  apply (reachable_invariant
           (fun s => 0 <= bassCooldown s <= 25 /\ 0 <= trebleCooldown s <= 15)).
  - cbn. lia.
  - intros s H. destruct (resetEffect_cooldowns true s) as (-> & -> & _). exact H.
  - intros playing s H. destruct (handleInput_cooldowns playing s) as (-> & ->). exact H.
  - intros analyser random s G H.
    destruct (bassCooldown_rule analyser random s G) as [_ ->].
    destruct (trebleCooldown_rule analyser random s G) as [_ ->].
    destruct (spawns obstacle _), (spawns coin _),
      (0 <? bassCooldown s) eqn:B, (0 <? trebleCooldown s) eqn:T; lia.
Qed.

Lemma crashed_reachable : reachable crashed.
Proof. exists (Play :: replicate 57 (Frame (Some loud) 0.7%float)). unfold crashed. reflexivity. Qed.

Lemma cooldowns_bounded_witness :
  0 <= bassCooldown (state crashed) <= 25 /\ 0 <= trebleCooldown (state crashed) <= 15.
Proof. apply (cooldowns_bounded crashed), crashed_reachable. Defined.

(** ** The outcome of a frame *)

Lemma pushedAll_app cs1 cs2 : pushedAll (cs1 ++ cs2) = pushedAll cs1 ++ pushedAll cs2.
Proof. apply omap_app. Qed.

Lemma pushedAll_pushes es : pushedAll (map entities_push es) = es.
Proof.
  induction es as [|e es IH]; [reflexivity|].
  cbn [map]. unfold pushedAll in *. cbn [omap list_omap]. rewrite IH. reflexivity.
Qed.

Lemma pushedAll_scoreCalls from k : pushedAll (scoreCalls from k) = [].
Proof. revert from. induction k as [|k IH]; intros from; [reflexivity | apply IH]. Qed.

Lemma simulated_pushedAll f random s1 :
  pushedAll (simulated f random s1).2
  = (if JS.gt (bass f) 155%float && (bassCooldown s1 =? 0) then [newObstacle s1] else [])
    ++ (if JS.gt (treble f) 100%float && (trebleCooldown s1 =? 0)
        then [newCoin random
                (set_nextId
                   (nextId s1 + b2z (JS.gt (bass f) 155%float && (bassCooldown s1 =? 0))) s1)]
        else []).
Proof.
  unfold simulated. cbv zeta. cbn [snd].
  rewrite !pushedAll_app, pushedAll_pushes, pushedAll_scoreCalls.
  destruct (Z.rem _ _ =? 0); cbn [pushedAll omap list_omap]; rewrite !app_nil_r; reflexivity.
Qed.

Lemma update_outcome analyser random s :
  gameOver s = false ->
  let r := update true analyser random s in
  let v := speedOf analyser s in
  let py := playerY (physics s) in
  let new := pushedAll r.2 in
  let k := coinsHit v py (entities s ++ new) in
  let tick := Z.rem (gameTime s + 1) 10 =? 0 in
  entities r.1 = survivors v py (entities s ++ new)
  /\ score r.1 = score s + 50 * Z.of_nat k + b2z tick
  /\ gameOver r.1 = obstacleHit v py (entities s ++ new)
  /\ gameTime r.1 = gameTime s + 1
  /\ nextId r.1 = nextId s + Z.of_nat (length new)
  /\ scrollSpeed r.1 = v
  /\ r.2 = map entities_push new ++ scoreCalls (score s) k
           ++ (if tick then [onScoreUpdate (score r.1)] else [])
  /\ map ent_id new = map (fun i => nextId s + Z.of_nat i) (seq 0 (length new))
  /\ (length new <= 2)%nat.
Proof.
  intros G r v py new k tick.
  set (s1 := prepared (set_scrollSpeed v s)).
  assert (U : r = simulated (featuresOf analyser) random s1) by (apply update_active, G).
  assert (E1 : entities s1 = entities s)
    by (unfold s1; rewrite prepared_entities; reflexivity).
  assert (N1 : nextId s1 = nextId s)
    by (unfold s1; rewrite prepared_nextId; reflexivity).
  assert (S1 : score s1 = score s)
    by (unfold s1; rewrite prepared_score; reflexivity).
  assert (G1 : gameOver s1 = false)
    by (unfold s1; rewrite prepared_gameOver; exact G).
  assert (T1 : gameTime s1 = gameTime s + 1)
    by (unfold s1; rewrite prepared_gameTime; reflexivity).
  assert (V1 : scrollSpeed s1 = v)
    by (unfold s1; rewrite prepared_scrollSpeed; reflexivity).
  assert (P1 : playerY s1 = py).
  { pose proof (prepared_config (set_scrollSpeed v s)) as C. fold s1 in C.
    apply (f_equal (fun c => c.1.1)) in C. cbn [config fst] in C. rewrite C.
    pose proof (physics_config (set_scrollSpeed v s) s) as D.
    apply (f_equal (fun c => c.1.1)) in D; [exact D | destruct s; reflexivity..]. }
  assert (NW : new = pushedAll (simulated (featuresOf analyser) random s1).2)
    by (unfold new; rewrite U; reflexivity).
  rewrite simulated_pushedAll in NW.
  unfold k, tick. clearbody new. subst new. rewrite U. unfold simulated. cbv zeta.
  cbn [fst snd entities score gameOver gameTime nextId scrollSpeed].
  rewrite E1, N1, S1, G1, T1, V1, P1. cbn [orb].
  destruct (JS.gt (bass _) _ && _), (JS.gt (treble _) _ && _);
    cbn [b2z app length seq map newObstacle newCoin ent_id nextId set_nextId];
    rewrite ?N1; repeat split; try lia;
    repeat (f_equal; try lia).
Qed.

(** X3: the outcome of a frame of a running game, read off the sequence it
    starts with and the entities it pushes: the survivors are the moved
    entities that are neither off-screen nor collected, the score gains 50
    per collected coin and 1 when the new frame count is a multiple of 10,
    the game is over exactly when a moved obstacle overlaps the player, and
    the new ids are the next free ones. *)
Theorem frame_outcome analyser random s :
  gameOver s = false ->
  let r := update true analyser random s in
  let v := speedOf analyser s in
  let py := playerY (physics s) in
  let new := pushedAll r.2 in
  let k := coinsHit v py (entities s ++ new) in
  let tick := Z.rem (gameTime s + 1) 10 =? 0 in
  entities r.1 = survivors v py (entities s ++ new)
  /\ score r.1 = score s + 50 * Z.of_nat k + b2z tick
  /\ gameOver r.1 = obstacleHit v py (entities s ++ new)
  /\ gameTime r.1 = gameTime s + 1
  /\ nextId r.1 = nextId s + Z.of_nat (length new)
  /\ scrollSpeed r.1 = v
  /\ r.2 = map entities_push new ++ scoreCalls (score s) k
           ++ (if tick then [onScoreUpdate (score r.1)] else [])
  /\ map ent_id new = map (fun i => nextId s + Z.of_nat i) (seq 0 (length new))
  /\ (length new <= 2)%nat.
Proof.
  intros G. pose proof (update_outcome analyser random s G) as H.
  cbv zeta in H. exact H.
Qed.

Lemma frame_outcome_witness :
  gameOver (update true (Some quiet) 0%float (state (exec approach initialWorld))).1
  = obstacleHit 3%float 203.6%float
      (entities (state (exec approach initialWorld)) ++ []).
Proof.
  pose proof (frame_outcome (Some quiet) 0%float (state (exec approach initialWorld)))
    as H.
  assert (G : gameOver (state (exec approach initialWorld)) = false)
    by (vm_compute; reflexivity).
  destruct (H G) as (_ & _ & H3 & _).
  etransitivity; [exact H3|]. vm_compute. reflexivity.
Defined.

(** ** Score *)

Lemma scoreAfter_app d cs1 cs2 : scoreAfter d (cs1 ++ cs2) = scoreAfter (scoreAfter d cs1) cs2.
Proof. apply fold_left_app. Qed.

Lemma scoreAfter_pushes d es : scoreAfter d (map entities_push es) = d.
Proof. induction es as [|e es IH]; [reflexivity | exact IH]. Qed.

Lemma scoreAfter_scoreCalls k : forall d from,
  d = from -> scoreAfter d (scoreCalls from k) = from + 50 * Z.of_nat k.
Proof.
  induction k as [|k IH]; intros d from ->.
  - cbn. lia.
  - cbn [scoreCalls scoreAfter fold_left]. fold (scoreAfter (from + 50) (scoreCalls (from + 50) k)).
    rewrite (IH _ _ eq_refl). lia.
Qed.

Lemma step_scoreAfter ev w :
  scoreAfter (score (state w)) (step ev w).2 = score (state (step ev w).1).
Proof.
  destruct w as [playing s].
  destruct ev as [| | |analyser random]; cbn [step isPlaying state fst snd].
  - destruct playing; [reflexivity|]. cbn [state fst snd]. unfold resetEffect. cbn [negb].
    destruct (gameOver s || (gameTime s =? 0)); reflexivity.
  - destruct playing; reflexivity.
  - destruct (handleInput_cases playing s) as [-> | ->]; reflexivity.
  - destruct (playing && negb (gameOver s)) eqn:A.
    + apply andb_true_iff in A as [-> G]. apply negb_true_iff in G.
      destruct (update_outcome analyser random s G) as (_ & S2 & _ & _ & _ & _ & L & _).
      cbv zeta in S2, L. rewrite L, !scoreAfter_app, scoreAfter_pushes.
      rewrite (scoreAfter_scoreCalls _ _ _ eq_refl).
      destruct (Z.rem _ _ =? 0); [reflexivity|].
      rewrite S2. cbn [scoreAfter fold_left b2z]. lia.
    + rewrite update_inactive by exact A. reflexivity.
Qed.

Lemma run_scoreAfter evs : forall w,
  scoreAfter (score (state w)) (concat (run evs w).2) = score (state (exec evs w)).
Proof.
  unfold exec. induction evs as [|ev evs IH]; intros w; [reflexivity|].
  cbn [run]. pose proof (step_scoreAfter ev w) as H.
  destruct (step ev w) as [w1 c]. specialize (IH w1).
  destruct (run evs w1) as [w2 cs]. cbn [fst snd concat] in *.
  rewrite scoreAfter_app, H. exact IH.
Qed.

Lemma scoreAfter_cases d d' cs :
  scoreAfter d cs = scoreAfter d' cs
  \/ (scoreAfter d cs = d /\ scoreAfter d' cs = d').
Proof.
  revert d d'. induction cs as [|c cs IH]; intros d d'; [right; split; reflexivity|].
  destruct c as [n|e]; cbn [scoreAfter fold_left].
  - left. reflexivity.
  - apply IH.
Qed.

Lemma step_Pause w : (step Pause w).2 = [] /\ state (step Pause w).1 = state w.
Proof. destruct w as [[] s]; split; reflexivity. Qed.

(** The invariant of the HUD: it shows the score of the game, or 0 after a
    file was chosen. *)
Lemma appStep_shown ev a u :
  shown a = score (state (world a)) \/ (shown a = 0 /\ u = true) ->
  shown (appStep ev a) = score (state (world (appStep ev a)))
  \/ (shown (appStep ev a) = 0 /\ u || isUpload ev = true).
Proof.
  intros H. destruct ev as [ev|audio]; cbn [appStep isUpload shown world].
  - pose proof (step_scoreAfter ev (world a)) as S.
    destruct H as [-> | [-> ->]]; [left; exact S|].
    destruct (scoreAfter_cases 0 (score (state (world a))) (step ev (world a)).2)
      as [E | [E1 E2]].
    + left. rewrite E. exact S.
    + right. split; [exact E1 | reflexivity].
  - right. split; [|apply orb_true_r].
    destruct audio; [|reflexivity].
    destruct (step_Pause (world a)) as [-> _]. reflexivity.
Qed.

Lemma appExec_shown evs : forall a u,
  shown a = score (state (world a)) \/ (shown a = 0 /\ u = true) ->
  shown (appExec evs a) = score (state (world (appExec evs a)))
  \/ (shown (appExec evs a) = 0 /\ u || existsb isUpload evs = true).
Proof.
  induction evs as [|ev evs IH]; intros a u H.
  - rewrite orb_false_r. exact H.
  - cbn [appExec fold_left existsb]. rewrite orb_assoc.
    apply (IH (appStep ev a) (u || isUpload ev)), appStep_shown, H.
Qed.

(** X4: the score of the HUD.  After any events of the parent and of the
    component, the score the parent holds is the [score] of the game state,
    or it is 0 and a file was chosen during the session: the component
    reports every change of its score, and the only other write is the
    [setScore(0)] of [handleFileUpload], which leaves the game state alone. *)
Theorem shown_score evs :
  shown (appExec evs initialApp) = score (state (world (appExec evs initialApp)))
  \/ (shown (appExec evs initialApp) = 0 /\ existsb isUpload evs = true).
Proof.
  apply (appExec_shown evs initialApp false). left. reflexivity.
Qed.

(** The second case happens: choosing a file in the middle of a game and
    resuming shows 0 while the game keeps its score, until the next point. *)
Lemma upload_hides_score a :
  isPlaying (world a) = true ->
  gameOver (state (world a)) = false ->
  gameTime (state (world a)) <> 0 ->
  appExec [FileUpload true; Child Play] a = mkApp 0 (world a).
Proof.
  destruct a as [n [playing s]]. cbn [world isPlaying state]. intros -> G T.
  cbn [appExec fold_left appStep step world isPlaying state resetEffect negb fst snd
       scoreAfter shown].
  rewrite G. apply Z.eqb_neq in T. rewrite T. reflexivity.
Qed.

(** X5: in every session the frame counter is not negative and the score is
    50 for each coin collected since the last reset plus one point for every
    ten frames of the run. *)
Theorem score_decomposition w :
  reachable w ->
  0 <= gameTime (state w)
  /\ exists coins : nat,
       score (state w) = 50 * Z.of_nat coins + gameTime (state w) / 10.
Proof.
  revert w.
  apply (reachable_invariant
           (fun s => 0 <= gameTime s
                     /\ exists coins : nat, score s = 50 * Z.of_nat coins + gameTime s / 10)).
  - split; [cbn; lia | exists 0%nat; reflexivity].
  - intros s H. destruct (resetEffect_cases s) as [-> | ->]; [exact H|].
    split; [cbn; lia | exists 0%nat; reflexivity].
  - intros playing s H. destruct (handleInput_cases playing s) as [-> | ->]; exact H.
  - intros analyser random s G (T & c & S).
    destruct (update_outcome analyser random s G) as (_ & S2 & _ & T2 & _).
    cbv zeta in S2. set (k := coinsHit _ _ _) in S2.
    rewrite S2, T2, S. split; [lia|].
    exists (c + k)%nat. unfold b2z.
    destruct (Z.rem (gameTime s + 1) 10 =? 0) eqn:R.
    + apply Z.eqb_eq in R. rewrite Z.rem_mod_nonneg in R by lia.
      rewrite Nat2Z.inj_add. Z.div_mod_to_equations. lia.
    + apply Z.eqb_neq in R. rewrite Z.rem_mod_nonneg in R by lia.
      rewrite Nat2Z.inj_add. Z.div_mod_to_equations. lia.
Qed.

Lemma score_decomposition_witness :
  0 <= gameTime (state crashed)
  /\ exists coins : nat,
       score (state crashed) = 50 * Z.of_nat coins + gameTime (state crashed) / 10.
Proof. apply (score_decomposition crashed), crashed_reachable. Defined.

(** ** What a frame pushes *)

Lemma update_pushedAll analyser random s :
  gameOver s = false ->
  pushedAll (update true analyser random s).2
  = (if spawns obstacle (update true analyser random s).2 then [newObstacle s] else [])
    ++ (if spawns coin (update true analyser random s).2
        then [newCoin random
                (set_nextId
                   (nextId s + b2z (spawns obstacle (update true analyser random s).2)) s)]
        else []).
Proof.
  intros G. rewrite update_active by exact G.
  rewrite simulated_pushedAll, simulated_spawns_obstacle, simulated_spawns_coin.
  set (s1 := prepared (set_scrollSpeed (speedOf analyser s) s)).
  assert (N1 : nextId s1 = nextId s)
    by (unfold s1; rewrite prepared_nextId; reflexivity).
  assert (G1 : groundY s1 = groundY s)
    by (unfold s1; rewrite prepared_groundY; reflexivity).
  unfold newObstacle, newCoin. cbn [nextId groundY set_nextId].
  rewrite N1, G1. reflexivity.
Qed.




(** ** The entities of a session *)

Lemma survivors_onScreen speed py es : List.Forall onScreen (survivors speed py es).
Proof.
  apply List.Forall_forall. intros ent I. unfold survivors in I.
  apply List.filter_In in I as [_ K]. apply negb_true_iff in K.
  unfold offscreen_or_collected in K. apply orb_false_iff in K as [K1 K2].
  split; assumption.
Qed.

(** X7: in every session, no entity of the sequence is collected or past the
    left edge ([x < -50]): the frame that collects a coin or moves an entity
    out also removes it. *)
Theorem entities_on_screen w : reachable w -> List.Forall onScreen (entities (state w)).
Proof.
  revert w. apply (reachable_invariant (fun s => List.Forall onScreen (entities s))).
  - apply List.Forall_nil.
  - intros s H. destruct (resetEffect_cases s) as [-> | ->]; [exact H | apply List.Forall_nil].
  - intros playing s H. destruct (handleInput_cases playing s) as [-> | ->]; exact H.
  - intros analyser random s G _.
    destruct (update_outcome analyser random s G) as (-> & _). apply survivors_onScreen.
Qed.

Lemma entities_on_screen_witness : List.Forall onScreen (entities (state crashed)).
Proof. apply (entities_on_screen crashed), crashed_reachable. Defined.

Lemma settle_shape speed py ent : wellShaped ent -> wellShaped (settle speed py ent).
Proof.
  unfold settle. destruct (hitsCoin _ _); destruct ent; exact (fun H => H).
Qed.

Lemma survivors_shape speed py es :
  List.Forall wellShaped es -> List.Forall wellShaped (survivors speed py es).
Proof.
  intros H. apply List.Forall_forall. intros ent I.
  unfold survivors in I. apply List.filter_In in I as [I _].
  apply List.in_map_iff in I as (ent0 & <- & I). apply settle_shape.
  exact (proj1 (List.Forall_forall _ _) H ent0 I).
Qed.

(** X8: in every session the ground line stays at 230 and every entity of
    the sequence is an obstacle 24 wide and 30 high standing on it
    ([y = 200]) or a coin 20 by 20 in the lower ([y = 150]) or the upper lane
    ([y = 90]); only [x] and [collected] are ever written. *)
Theorem entities_well_shaped w :
  reachable w ->
  groundY (state w) = 230%float /\ List.Forall wellShaped (entities (state w)).
Proof.
  revert w.
  apply (reachable_invariant
           (fun s => groundY s = 230%float /\ List.Forall wellShaped (entities s))).
  - split; [reflexivity | apply List.Forall_nil].
  - intros s H. destruct (resetEffect_cases s) as [-> | ->]; [exact H|].
    split; [exact (proj1 H) | apply List.Forall_nil].
  - intros playing s H. destruct (handleInput_cases playing s) as [-> | ->]; exact H.
  - intros analyser random s G [HG HS]. split; [rewrite update_groundY; exact HG|].
    destruct (update_outcome analyser random s G) as (-> & _).
    apply survivors_shape, List.Forall_app. split; [exact HS|].
    rewrite update_pushedAll by exact G. apply List.Forall_app.
    split.
    + destruct (spawns obstacle _); [|apply List.Forall_nil].
      apply List.Forall_cons; [|apply List.Forall_nil].
      unfold wellShaped, newObstacle. cbn [ent_type ent_y ent_w ent_h ent_color].
      rewrite HG. repeat split.
    + destruct (spawns coin _); [|apply List.Forall_nil].
      apply List.Forall_cons; [|apply List.Forall_nil].
      unfold wellShaped, newCoin.
      cbn [ent_type ent_y ent_w ent_h ent_color groundY set_nextId].
      rewrite HG. destruct (JS.gt random 0.5%float); repeat split; [left | right]; reflexivity.
Qed.

Lemma entities_well_shaped_witness :
  groundY (state crashed) = 230%float /\ List.Forall wellShaped (entities (state crashed)).
Proof. apply (entities_well_shaped crashed), crashed_reachable. Defined.

(** ** Identifiers in order *)

Lemma map_seq_from n b : forall a,
  map (fun i => n + Z.of_nat i) (seq a b)
  = map (fun i => n + Z.of_nat a + Z.of_nat i) (seq 0 b).
Proof.
  induction b as [|b IH]; intros a; [reflexivity|].
  cbn [seq map]. f_equal; [lia|].
  rewrite IH, <- List.seq_shift, List.map_map.
  apply List.map_ext. intros i. lia.
Qed.

Lemma idsFrom_app n a b : idsFrom n (a + b) = idsFrom n a ++ idsFrom (n + Z.of_nat a) b.
Proof.
  unfold idsFrom. rewrite List.seq_app, List.map_app. f_equal. apply map_seq_from.
Qed.

Lemma idsFrom_sorted m : forall n, StronglySorted Z.lt (idsFrom n m).
Proof.
  induction m as [|m IH]; intros n; [constructor|].
  change (S m) with (1 + m)%nat. rewrite idsFrom_app.
  cbn [idsFrom seq map app]. constructor; [apply IH|].
  apply List.Forall_forall. intros x I. unfold idsFrom in I.
  apply List.in_map_iff in I as (i & <- & _). lia.
Qed.

Lemma sorted_app (l1 l2 : list Z) :
  StronglySorted Z.lt l1 -> StronglySorted Z.lt l2 ->
  (forall x y, In x l1 -> In y l2 -> x < y) ->
  StronglySorted Z.lt (l1 ++ l2).
Proof.
  intros S1 S2 H. induction S1 as [|x l1 S1 IH F]; [exact S2|].
  cbn [app]. constructor.
  - apply IH. intros a b Ia Ib. apply H; [right; exact Ia | exact Ib].
  - apply List.Forall_app. split; [exact F|].
    apply List.Forall_forall. intros y Iy. apply H; [left; reflexivity | exact Iy].
Qed.

Lemma survivors_sorted speed py es :
  StronglySorted Z.lt (map ent_id es) ->
  StronglySorted Z.lt (map ent_id (survivors speed py es)).
Proof.
  unfold survivors. induction es as [|ent es IH]; intros S; [constructor|].
  cbn [map] in S. apply StronglySorted_inv in S as [S F]. specialize (IH S).
  cbn [map List.filter]. destruct (negb _); [|exact IH].
  cbn [map]. constructor; [exact IH|]. rewrite settle_id.
  apply List.Forall_forall. intros x I.
  apply List.in_map_iff in I as (e1 & <- & I).
  apply List.filter_In in I as [I _].
  apply List.in_map_iff in I as (e0 & <- & I). rewrite settle_id.
  apply (proj1 (List.Forall_forall _ _) F). apply List.in_map, I.
Qed.

(** X9: in every session the ids of the sequence increase strictly from
    front to back and stay below [nextId]: the sequence is in spawn order and
    no two entities share an id. *)
Theorem entities_in_spawn_order w :
  reachable w ->
  StronglySorted Z.lt (map ent_id (entities (state w)))
  /\ List.Forall (fun ent => ent_id ent < nextId (state w)) (entities (state w))
  /\ List.NoDup (map ent_id (entities (state w))).
Proof.
  intros R.
  assert (K : StronglySorted Z.lt (map ent_id (entities (state w))) /\ idsBelow (state w)).
  { revert w R.
    apply (reachable_invariant
             (fun s => StronglySorted Z.lt (map ent_id (entities s)) /\ idsBelow s)).
    - split; [constructor | apply List.Forall_nil].
    - intros s H. destruct (resetEffect_cases s) as [-> | ->]; [exact H|].
      split; [constructor | apply List.Forall_nil].
    - intros playing s H. destruct (handleInput_cases playing s) as [-> | ->]; exact H.
    - intros analyser random s G [HS HB]. split.
      + destruct (update_outcome analyser random s G)
          as (-> & _ & _ & _ & _ & _ & _ & HI & _).
        cbv zeta in HI. apply survivors_sorted. rewrite map_app.
        apply sorted_app; [exact HS | rewrite HI; apply idsFrom_sorted|].
        intros x y Ix Iy. rewrite HI in Iy.
        apply List.in_map_iff in Ix as (e0 & <- & Ix).
        apply List.in_map_iff in Iy as (i & <- & _).
        pose proof (proj1 (List.Forall_forall _ _) HB e0 Ix) as L. cbn beta in L. lia.
      + exact (idsBelow_step (Frame analyser random) (mkWorld true s) HB). }
  destruct K as [KS KB]. split; [exact KS|]. split; [exact KB|].
  clear KB. induction KS as [|x l KS IH F]; constructor; [|exact IH].
  intros I. pose proof (proj1 (List.Forall_forall _ _) F x I). lia.
Qed.

Lemma entities_in_spawn_order_witness :
  StronglySorted Z.lt (map ent_id (entities (state crashed)))
  /\ List.Forall (fun ent => ent_id ent < nextId (state crashed)) (entities (state crashed))
  /\ List.NoDup (map ent_id (entities (state crashed))).
Proof. apply (entities_in_spawn_order crashed), crashed_reachable. Defined.

Lemma step_ids ev w :
  map ent_id (pushedAll (step ev w).2)
  = idsFrom (nextId (state w)) (length (pushedAll (step ev w).2))
  /\ nextId (state (step ev w).1)
     = nextId (state w) + Z.of_nat (length (pushedAll (step ev w).2)).
Proof.
  destruct w as [playing s].
  destruct ev as [| | |analyser random]; cbn [step isPlaying state fst snd].
  - destruct playing; cbn [state fst snd].
    + split; [reflexivity | cbn; lia].
    + unfold resetEffect. cbn [negb].
      destruct (gameOver s || (gameTime s =? 0)); cbn; split; try reflexivity; lia.
  - destruct playing; cbn; split; try reflexivity; lia.
  - destruct (handleInput_cases playing s) as [-> | ->]; cbn; split; try reflexivity; lia.
  - destruct (playing && negb (gameOver s)) eqn:A.
    + apply andb_true_iff in A as [-> G]. apply negb_true_iff in G.
      destruct (update_outcome analyser random s G)
        as (_ & _ & _ & _ & HN & _ & _ & HI & _).
      split; [exact HI | exact HN].
    + rewrite update_inactive by exact A. cbn. split; [reflexivity | lia].
Qed.

Lemma run_ids evs : forall w,
  map ent_id (pushedAll (concat (run evs w).2))
  = idsFrom (nextId (state w)) (length (pushedAll (concat (run evs w).2)))
  /\ nextId (state (exec evs w))
     = nextId (state w) + Z.of_nat (length (pushedAll (concat (run evs w).2))).
Proof.
  unfold exec. induction evs as [|ev evs IH]; intros w.
  - cbn. split; [reflexivity | lia].
  - cbn [run]. destruct (step_ids ev w) as [H1 H2].
    destruct (step ev w) as [w1 c]. destruct (IH w1) as [I1 I2].
    destruct (run evs w1) as [w2 cs]. cbn [fst snd concat] in *.
    rewrite pushedAll_app, map_app, length_app, idsFrom_app, H1, I1, I2, H2.
    split; [reflexivity | lia].
Qed.

(** X10: over a whole session, resets included, the entities pushed receive
    the ids 0, 1, 2, ... in the order of the pushes, and [nextId] is their
    number: an id is never given twice. *)
Theorem session_ids evs :
  map ent_id (pushedAll (concat (run evs initialWorld).2))
  = idsFrom 0 (length (pushedAll (concat (run evs initialWorld).2)))
  /\ nextId (state (exec evs initialWorld))
     = Z.of_nat (length (pushedAll (concat (run evs initialWorld).2)))
  /\ List.NoDup (map ent_id (pushedAll (concat (run evs initialWorld).2))).
Proof.
  destruct (run_ids evs initialWorld) as [H1 H2].
  cbn [state initialWorld nextId initialState] in H1, H2.
  split; [exact H1|]. split; [rewrite H2; lia|].
  rewrite H1. generalize (length (pushedAll (concat (run evs initialWorld).2))).
  intros m. pose proof (idsFrom_sorted m 0) as S.
  induction S as [|x l S IH F]; constructor; [|exact IH].
  intros I. pose proof (proj1 (List.Forall_forall _ _) F x I). lia.
Qed.

(** ** Pause and resume *)

Lemma paused_step ev s :
  isPlay ev = false -> step ev (mkWorld false s) = (mkWorld false s, []).
Proof.
  destruct ev as [| | |analyser random]; cbn [isPlay step isPlaying state]; intros H.
  - discriminate.
  - reflexivity.
  - reflexivity.
  - rewrite update_inactive by reflexivity. reflexivity.
Qed.

Lemma paused_run evs s :
  forallb (fun ev => negb (isPlay ev)) evs = true ->
  forall tl, run (evs ++ tl) (mkWorld false s)
             = ((run tl (mkWorld false s)).1,
                map (fun _ => []) evs ++ (run tl (mkWorld false s)).2).
Proof.
  induction evs as [|ev evs IH]; intros H tl.
  - cbn [app map]. destruct (run tl _); reflexivity.
  - cbn [forallb] in H. apply andb_true_iff in H as [H1 H2]. apply negb_true_iff in H1.
    cbn [app run]. rewrite (paused_step ev s H1), (IH H2 tl).
    destruct (run tl _); reflexivity.
Qed.

(** X11: pausing a running game, letting any number of frames and inputs
    pass, and resuming it changes nothing: while paused the frames and the
    jump intents leave the state alone, and a play command met with the game
    not over and [gameTime] not 0 does not reset.  No call is made. *)
Theorem pause_resume evs w :
  isPlaying w = true ->
  gameOver (state w) = false ->
  gameTime (state w) <> 0 ->
  forallb (fun ev => negb (isPlay ev)) evs = true ->
  exec (Pause :: evs ++ [Play]) w = w
  /\ concat (run (Pause :: evs ++ [Play]) w).2 = [].
Proof.
  destruct w as [playing s]. cbn [isPlaying state]. intros -> G T H.
  unfold exec. cbn [run step isPlaying state resetEffect negb fst snd].
  rewrite (paused_run evs s H [Play]).
  cbn [run step isPlaying state fst snd]. unfold resetEffect. cbn [negb].
  rewrite G. apply Z.eqb_neq in T. rewrite T. cbn [orb fst snd concat app].
  split; [reflexivity|].
  rewrite concat_app. cbn [concat app]. rewrite app_nil_r.
  clear. induction evs as [|ev evs IH]; [reflexivity | exact IH].
Qed.

Lemma pause_resume_witness :
  exec (Pause :: [Frame (Some loud) 0.3%float; Jump; Frame None 0%float] ++ [Play])
       (exec approach initialWorld)
  = exec approach initialWorld.
Proof.
  apply (pause_resume [Frame (Some loud) 0.3%float; Jump; Frame None 0%float]
           (exec approach initialWorld)).
  - vm_compute. reflexivity.
  - vm_compute. reflexivity.
  - assert (E : gameTime (state (exec approach initialWorld)) = 132)
      by (vm_compute; reflexivity).
    rewrite E. discriminate.
  - reflexivity.
Defined.

(** ** The reach of a jump *)

Lemma configs_apex :
  List.Forall (fun c : number * number * bool =>
                 JS.le 151.59999999999994%float c.1.1 = true
                        /\ JS.lt (c.1.1 - 40)%float (230 - 140 + 20)%float = false) configs.
Proof.
  unfold configs, jumpArc.
  repeat (apply List.Forall_cons; [split; reflexivity|]). apply List.Forall_nil.
Qed.

(** X12: in every session the player's feet stay at or below
    [y = 151.6] (the top of a jump), so the top of the hitbox stays below
    [y = 110], and an entity that ends there is never overlapped: the coins
    of the upper lane, spawned at [groundY - 140] and 20 high, cannot be
    collected. *)
Theorem upper_lane_out_of_reach w ent :
  reachable w ->
  ent_y ent = (groundY (state w) - 140)%float ->
  ent_h ent = 20%float ->
  JS.le 151.59999999999994%float (playerY (state w)) = true
  /\ overlaps (playerY (state w)) ent = false
  /\ forall speed, hitsCoin (playerY (state w)) (advance speed ent) = false.
Proof.
  intros R Y H. destruct (playerInv_reachable w R) as [HG HC].
  pose proof (proj1 (List.Forall_forall _ _) configs_apex _ HC) as [A B].
  cbn [config fst] in A, B.
  assert (O : forall e, ent_y e = ent_y ent -> ent_h e = ent_h ent ->
                        overlaps (playerY (state w)) e = false).
  { intros e Ye He. unfold overlaps. cbv zeta. rewrite Ye, He, Y, H, HG.
    change (groundY initialState) with 230%float. rewrite B.
    rewrite andb_false_r. reflexivity. }
  split; [exact A|]. split; [apply O; reflexivity|].
  intros speed. unfold hitsCoin. rewrite O; [reflexivity | reflexivity..].
Qed.

Lemma upper_lane_out_of_reach_witness :
  overlaps (playerY (state airborne))
           (mkEntity 0 110%float 90%float 20%float 20%float coin "#ffff00" false)
  = false.
Proof.
  refine (proj1 (proj2 (upper_lane_out_of_reach airborne
            (mkEntity 0 110%float 90%float 20%float 20%float coin "#ffff00" false)
            _ _ _))).
  - exists [Play; Frame None 0%float; Jump]. reflexivity.
  - reflexivity.
  - reflexivity.
Defined.

(** ** The sampler on the buffers of a real analyser *)

Lemma wB_big : 2 ^ 16 < Uint63.wB.
Proof. reflexivity. Qed.

Lemma int_add_of_Z i a b :
  0 <= a -> 0 <= b -> a + b < 2 ^ 15 ->
  Uint63.add (Uint63.add i (Uint63.of_Z a)) (Uint63.of_Z b)
  = Uint63.add i (Uint63.of_Z (a + b)).
Proof.
  intros A B L. pose proof wB_big as W. apply Uint63.to_Z_inj.
  rewrite !Uint63.add_spec, !Uint63.of_Z_spec.
  rewrite (Z.mod_small a), (Z.mod_small b), (Z.mod_small (a + b)) by lia.
  rewrite Z.add_mod_idemp_l by lia. f_equal. lia.
Qed.

Lemma int_zero_add a :
  0 <= a < 2 ^ 15 -> Uint63.add 0%uint63 (Uint63.of_Z a) = Uint63.of_Z a.
Proof.
  intros A. pose proof wB_big as W. apply Uint63.to_Z_inj.
  rewrite Uint63.add_spec, Uint63.of_Z_spec, Uint63.to_Z_0.
  rewrite (Z.mod_small a) by lia. cbn [Z.add]. apply Z.mod_small. lia.
Qed.

Lemma bits_S k : bits (S k) = Uint63.of_Z (2 ^ Z.of_nat k) :: bits k.
Proof. unfold bits. rewrite List.seq_S, List.rev_app_distr. reflexivity. Qed.

Lemma allSums_bits k : forall i p,
  (k <= 15)%nat ->
  allSums (bits k) i p = true ->
  forall z, 0 <= z < 2 ^ Z.of_nat k -> p (Uint63.add i (Uint63.of_Z z)) = true.
Proof.
  induction k as [|k IH]; intros i p K H z Z.
  - cbn in Z. assert (z = 0) as -> by lia. cbn [bits map rev seq allSums] in H.
    replace (Uint63.add i (Uint63.of_Z 0)) with i; [exact H|].
    apply Uint63.to_Z_inj. rewrite Uint63.add_spec, Uint63.of_Z_spec.
    pose proof (Uint63.to_Z_bounded i). rewrite Z.mod_0_l by (intros E; discriminate E).
    rewrite Z.add_0_r, Z.mod_small by lia. reflexivity.
  - rewrite bits_S in H. cbn [allSums] in H. apply andb_true_iff in H as [H1 H2].
    rewrite Nat2Z.inj_succ, Z.pow_succ_r in Z by lia.
    assert (P : 2 ^ Z.of_nat k <= 2 ^ 14) by (apply Z.pow_le_mono_r; lia).
    change (2 ^ 14) with 16384 in P.
    assert (P0 : 0 < 2 ^ Z.of_nat k) by (apply Z.pow_pos_nonneg; lia).
    destruct (Z_lt_dec z (2 ^ Z.of_nat k)) as [L|L].
    + apply (IH i p); [lia | exact H1 | lia].
    + replace z with (2 ^ Z.of_nat k + (z - 2 ^ Z.of_nat k)) by lia.
      rewrite <- int_add_of_Z by (change (2 ^ 15) with 32768; lia).
      apply (IH _ p); [lia | exact H2 | lia].
Qed.

Lemma allSums_from_zero k p :
  (k <= 15)%nat -> allSums (bits k) 0%uint63 p = true ->
  forall z, 0 <= z < 2 ^ Z.of_nat k -> p (Uint63.of_Z z) = true.
Proof.
  intros K H z Z. rewrite <- (int_zero_add z).
  - apply (allSums_bits k _ p K H z Z).
  - split; [lia|]. apply Z.lt_le_trans with (2 ^ Z.of_nat k); [lia|].
    apply Z.pow_le_mono_r; lia.
Qed.

(** *** Integer arithmetic in binary64, from the specification of the
    primitive operations *)

Lemma digits2_log2 m : Zpos (digits2_pos m) = Z.log2 (Zpos m) + 1.
Proof.
  induction m as [m IH|m IH|]; [| |reflexivity]; cbn [digits2_pos];
    rewrite Pos2Z.inj_succ, IH.
  - rewrite Pos2Z.inj_xI, Z.log2_succ_double by lia. lia.
  - rewrite Pos2Z.inj_xO, Z.log2_double by lia. lia.
Qed.

Lemma iter_pos_nat {A} (f : A -> A) p : forall x,
  SpecFloat.iter_pos f p x = Nat.iter (Pos.to_nat p) f x.
Proof.
  induction p as [p IH|p IH|]; intros x; cbn [SpecFloat.iter_pos].
  - rewrite !IH, Pos2Nat.inj_xI, <- Nat.iter_succ_r, <- Nat.iter_add. f_equal. lia.
  - rewrite !IH, Pos2Nat.inj_xO, <- Nat.iter_add. f_equal. lia.
  - reflexivity.
Qed.

Lemma shr_1_double z :
  0 < z ->
  shr_1 (Build_shr_record (2 * z) false false) = Build_shr_record z false false.
Proof. destruct z; [lia | reflexivity | lia]. Qed.

Lemma iter_shr_1 k : forall q,
  0 < q ->
  Nat.iter k shr_1 (Build_shr_record (q * 2 ^ Z.of_nat k) false false)
  = Build_shr_record q false false.
Proof.
  induction k as [|k IH]; intros q Q.
  - cbn [Nat.iter]. rewrite Z.mul_1_r. reflexivity.
  - rewrite Nat.iter_succ_r, Nat2Z.inj_succ, Z.pow_succ_r by lia.
    replace (q * (2 * 2 ^ Z.of_nat k)) with (2 * (q * 2 ^ Z.of_nat k)) by lia.
    rewrite shr_1_double by (apply Z.mul_pos_pos; [exact Q | apply Z.pow_pos_nonneg; lia]).
    apply IH, Q.
Qed.

(** Shifting right a mantissa whose low bits are 0 loses nothing. *)
Lemma shr_exact q e k :
  0 < q -> 0 <= k ->
  shr (Build_shr_record (q * 2 ^ k) false false) e k
  = (Build_shr_record q false false, e + k).
Proof.
  intros Q K. unfold shr. destruct k as [|p|p]; [|  |lia].
  - rewrite Z.mul_1_r, Z.add_0_r. reflexivity.
  - rewrite iter_pos_nat. rewrite <- (positive_nat_Z p) at 1.
    rewrite iter_shr_1 by exact Q. reflexivity.
Qed.

Lemma shl_align_spec m e e' :
  (shl_align m e e').2 = Z.min e e'
  /\ Zpos (shl_align m e e').1 = Zpos m * 2 ^ (e - Z.min e e').
Proof.
  unfold shl_align. destruct (e' - e) as [|p|p] eqn:D; cbn [fst snd].
  - rewrite Z.min_l by lia. rewrite Z.sub_diag, Z.mul_1_r. split; reflexivity.
  - rewrite Z.min_l by lia. rewrite Z.sub_diag, Z.mul_1_r. split; reflexivity.
  - rewrite Z.min_r by lia. split; [reflexivity|].
    change (Pos.iter xO m p) with (shift_pos p m).
    rewrite shift_pos_correct. replace (e - e') with (Zpos p) by lia.
    change (Zpower_pos 2 p) with (2 ^ Zpos p). lia.
Qed.

Lemma fexp_small x : -1021 <= x -> fexp prec emax x = x - 53.
Proof. unfold fexp, SpecFloat.emin, prec, emax. lia. Qed.

Lemma binary_round_int n j m :
  0 < n < 2 ^ 53 -> 0 <= j -> Zpos m = n * 2 ^ j ->
  binary_round prec emax false m (- j) = normalized n.
Proof.
  intros N J M. unfold normalized.
  assert (L : 0 <= Z.log2 n <= 52).
  { split; [apply Z.log2_nonneg|]. apply Z.lt_succ_r, Z.log2_lt_pow2; lia. }
  set (l := Z.log2 n) in *.
  assert (P : forall a, 0 <= a -> 0 < n * 2 ^ a).
  { intros a A. apply Z.mul_pos_pos; [lia | apply Z.pow_pos_nonneg; lia]. }
  assert (D : forall a p, 0 <= a -> Zpos p = n * 2 ^ a -> Zpos (digits2_pos p) = l + 1 + a).
  { intros a p A E. rewrite digits2_log2, E, Z.log2_mul_pow2 by lia. fold l. lia. }
  set (qp := Z.to_pos (n * 2 ^ (52 - l))).
  assert (Q : Zpos qp = n * 2 ^ (52 - l)) by (apply Z2Pos.id, P; lia).
  unfold binary_round. rewrite (D j m J M).
  replace (l + 1 + j + - j) with (l + 1) by lia. rewrite fexp_small by lia.
  destruct (shl_align_spec m (- j) (l + 1 - 53)) as [E1 E2].
  destruct (shl_align m (- j) (l + 1 - 53)) as [mz ez]. cbn [fst snd] in E1, E2.
  set (k := l - 52 - ez).
  assert (K : 0 <= k) by lia.
  assert (MZ : Zpos mz = Zpos qp * 2 ^ k).
  { rewrite E2, M, Q, <- !Z.mul_assoc, <- !Z.pow_add_r by lia. f_equal. f_equal. lia. }
  assert (MZ' : Zpos mz = n * 2 ^ (52 - l + k)).
  { rewrite MZ, Q, <- Z.mul_assoc, <- Z.pow_add_r by lia. reflexivity. }
  unfold binary_round_aux, shr_fexp. cbn [Zdigits2 shr_record_of_loc].
  rewrite (D (52 - l + k) mz ltac:(lia) MZ').
  replace (l + 1 + (52 - l + k) + ez) with (l + 1) by lia. rewrite fexp_small by lia.
  replace (l + 1 - 53 - ez) with k by lia.
  rewrite MZ, shr_exact by lia.
  cbn [shr_m loc_of_shr_record round_nearest_even Zdigits2 shr_record_of_loc].
  rewrite (D (52 - l) qp ltac:(lia) Q).
  replace (l + 1 + (52 - l) + (ez + k)) with (l + 1) by lia. rewrite fexp_small by lia.
  replace (l + 1 - 53 - (ez + k)) with 0 by lia.
  cbn [shr shr_m].
  replace (ez + k) with (l - 52) by lia.
  replace (l - 52 <=? emax - prec) with true
    by (symmetry; apply Z.leb_le; unfold emax, prec; lia).
  reflexivity.
Qed.

Lemma to_Z_of_Z_small n : 0 <= n < 2 ^ 53 -> Uint63.to_Z (Uint63.of_Z n) = n.
Proof.
  intros N. rewrite Uint63.of_Z_spec. apply Z.mod_small.
  change Uint63.wB with (2 ^ 63). split; [lia|].
  apply Z.lt_trans with (2 ^ 53); [lia | reflexivity].
Qed.

Lemma log2_int n : 0 < n < 2 ^ 53 -> 0 <= Z.log2 n <= 52.
Proof.
  intros N. split; [apply Z.log2_nonneg|]. apply Z.lt_succ_r, Z.log2_lt_pow2; lia.
Qed.

(** The binary64 value of an integer below 2^53 is that integer. *)
Lemma Prim2SF_ofZ n :
  0 <= n < 2 ^ 53 ->
  Prim2SF (ofZ n) = if n =? 0 then S754_zero false else normalized n.
Proof.
  intros N. unfold ofZ, ofInt. rewrite FloatAxioms.of_uint63_spec, to_Z_of_Z_small by exact N.
  destruct n as [|p|p]; [reflexivity| |lia].
  cbn [binary_normalize Z.eqb]. change 0 with (- 0).
  apply binary_round_int; [lia | lia | rewrite Z.mul_1_r; reflexivity].
Qed.

(** Adding two integers is exact as long as the sum is below 2^53. *)
Lemma ofZ_add_exact t b :
  0 <= t -> 0 <= b -> t + b < 2 ^ 53 -> (ofZ t + ofZ b)%float = ofZ (t + b).
Proof.
  intros T B S. apply Prim2SF_inj.
  rewrite FloatAxioms.add_spec, !Prim2SF_ofZ by lia.
  destruct (Z.eqb_spec t 0) as [->|T0], (Z.eqb_spec b 0) as [->|B0].
  - reflexivity.
  - rewrite Z.add_0_l. destruct (Z.eqb_spec b 0); [lia | reflexivity].
  - rewrite Z.add_0_r. destruct (Z.eqb_spec t 0); [lia | reflexivity].
  - destruct (Z.eqb_spec (t + b) 0); [lia|].
    assert (Lt : 0 <= Z.log2 t <= 52) by (apply log2_int; lia).
    assert (Lb : 0 <= Z.log2 b <= 52) by (apply log2_int; lia).
    assert (P : forall n a, 0 < n -> 0 <= a -> 0 < n * 2 ^ a).
    { intros m a M A. apply Z.mul_pos_pos; [lia | apply Z.pow_pos_nonneg; lia]. }
    unfold normalized at 1 2. unfold SF64add, SFadd. cbv zeta. cbn [cond_Zopp].
    set (ez := Z.min (Z.log2 t - 52) (Z.log2 b - 52)).
    destruct (shl_align_spec (Z.to_pos (t * 2 ^ (52 - Z.log2 t))) (Z.log2 t - 52) ez)
      as [_ E1].
    destruct (shl_align_spec (Z.to_pos (b * 2 ^ (52 - Z.log2 b))) (Z.log2 b - 52) ez)
      as [_ E2].
    rewrite Z2Pos.id in E1, E2 by (apply P; lia).
    set (m1 := (shl_align _ (Z.log2 t - 52) ez).1) in *.
    set (m2 := (shl_align _ (Z.log2 b - 52) ez).1) in *.
    change (Z.pos m1 + Z.pos m2) with (Z.pos (m1 + m2)).
    change (binary_normalize prec emax (Z.pos (m1 + m2)) ez false)
      with (binary_round prec emax false (m1 + m2) ez).
    replace ez with (- (- ez)) at 1 by lia.
    apply binary_round_int; [lia | lia|].
    rewrite Pos2Z.inj_add, E1, E2, <- !Z.mul_assoc, <- !Z.pow_add_r by lia.
    rewrite Z.mul_add_distr_r. f_equal; f_equal; f_equal; lia.
Qed.










Lemma byteZ_bounded b : 0 <= byteZ b < 2 ^ 8.
Proof. unfold byteZ. pose proof (Byte.to_N_bounded b). change (2 ^ 8) with 256. lia. Qed.

Lemma of_byte_ofZ b : JS.of_byte b = ofZ (byteZ b).
Proof. reflexivity. Qed.


(** The sums of [analyse] are exact: the float that [sumBins] builds is the
    integer sum of the bytes. *)
Lemma sumBins_sum data : forall n lo t,
  (lo + n <= length data)%nat ->
  0 <= t -> t + 255 * Z.of_nat n < 2 ^ 53 ->
  sumBins data lo n (ofZ t) = ofZ (t + sumZ data lo n)
  /\ 0 <= sumZ data lo n <= 255 * Z.of_nat n.
Proof.
  induction n as [|n IH]; intros lo t L T B.
  - cbn [sumBins sumZ]. rewrite Z.add_0_r. split; [reflexivity | lia].
  - cbn [sumBins sumZ]. unfold bin.
    destruct (data !! lo) as [b|] eqn:E.
    2: { apply lookup_ge_None in E. lia. }
    pose proof (byteZ_bounded b) as Hb. change (2 ^ 8) with 256 in Hb.
    rewrite of_byte_ofZ, ofZ_add_exact by lia.
    destruct (IH (S lo) (t + byteZ b)) as [I1 I2]; [lia..|].
    rewrite I1. split; [f_equal; lia | lia].
Qed.

Lemma sumBins_exact data n lo t :
  (lo + n <= length data)%nat ->
  0 <= t -> t + 255 * Z.of_nat n < 2 ^ 15 ->
  sumBins data lo n (ofZ t) = ofZ (t + sumZ data lo n)
  /\ 0 <= sumZ data lo n <= 255 * Z.of_nat n.
Proof.
  intros L T B. apply sumBins_sum; [exact L | exact T|].
  apply Z.lt_trans with (2 ^ 15); [exact B | reflexivity].
Qed.

Lemma allSums_guarded k bound p z :
  (k <= 15)%nat -> 0 <= bound < 2 ^ 16 ->
  allSums (bits k) 0%uint63
    (fun sum => negb (Uint63.leb sum (Uint63.of_Z bound)) || p (ofInt sum)) = true ->
  0 <= z < 2 ^ Z.of_nat k -> z <= bound ->
  p (ofZ z) = true.
Proof.
  intros K Bd H Z L. pose proof (allSums_from_zero k _ K H z Z) as E. cbv beta in E.
  assert (P : 2 ^ Z.of_nat k <= 2 ^ 15) by (apply Z.pow_le_mono_r; lia).
  pose proof wB_big as W.
  assert (G : Uint63.leb (Uint63.of_Z z) (Uint63.of_Z bound) = true).
  { apply Uint63.leb_spec. rewrite !Uint63.of_Z_spec, !Z.mod_small; lia. }
  rewrite G in E. exact E.
Qed.

Lemma sampler_table :
  forallb (fun N => bassCheck N && trebleCheck N && volumeCheck N) (seq 7 122) = true.
Proof. vm_compute. reflexivity. Qed.

(** X13: on every buffer of 7 to 128 bins (the analyser of the application
    has 128), whatever the bytes, the three features are numbers in their
    ranges: bass and treble between 0 and 255, volume between 0 and 1; and
    the scroll speed that a frame of a running game stores is between 3 and
    7, as the comment in the source says. *)
Theorem features_in_range data :
  (7 <= length data <= 128)%nat ->
  let f := analyse data in
  within 0%float 255%float (bass f) = true
  /\ within 0%float 255%float (treble f) = true
  /\ within 0%float 1%float (volume f) = true
  /\ within 3%float 7%float (3 + volume f * 4)%float = true
  /\ forall random s,
       gameOver s = false ->
       within 3%float 7%float (scrollSpeed (update true (Some data) random s).1) = true.
Proof.
  intros L f.
  assert (I : In (length data) (seq 7 122)) by (apply List.in_seq; lia).
  pose proof (proj1 (List.forallb_forall _ _) sampler_table _ I) as C. cbv beta in C.
  apply andb_true_iff in C as [C CV]. apply andb_true_iff in C as [CB CT].
  assert (Z0 : 0%float = ofZ 0) by reflexivity.
  assert (B : within 0%float 255%float (bass f) = true).
  { unfold bassCheck in CB. cbv zeta in CB.
    set (k := JS.Math_floor (JS.of_nat (length data) * 0.15)%float) in *.
    apply andb_true_iff in CB as [CB A]. apply andb_true_iff in CB as [CB K32].
    apply andb_true_iff in CB as [K1 KN].
    apply Nat.leb_le in K1, KN, K32.
    destruct (sumBins_exact data k 0 0) as [E R];
      [lia | lia | change (2 ^ 15) with 32768; lia |].
    unfold f, analyse. cbv zeta. cbn [bass]. fold k. rewrite Z0, E.
    apply (allSums_guarded 13 (255 * Z.of_nat k)
             (fun x => within 0%float 255%float (x / JS.of_nat k)%float));
      [lia | change (2 ^ 16) with 65536; lia | exact A
      | change (2 ^ Z.of_nat 13) with 8192; lia | lia]. }
  assert (T : within 0%float 255%float (treble f) = true).
  { unfold trebleCheck in CT. cbv zeta in CT.
    set (ts := JS.Math_floor (JS.of_nat (length data) * 0.7)%float) in *.
    apply andb_true_iff in CT as [CT A]. apply andb_true_iff in CT as [TN T64].
    apply Nat.leb_le in TN, T64.
    destruct (sumBins_exact data (length data - ts) ts 0) as [E R];
      [lia | lia | change (2 ^ 15) with 32768; lia |].
    unfold f, analyse. cbv zeta. cbn [treble]. fold ts. rewrite Z0, E.
    apply (allSums_guarded 14 (255 * Z.of_nat (length data - ts))
             (fun x => within 0%float 255%float
                         (x / (JS.of_nat (length data) - JS.of_nat ts))%float));
      [lia | change (2 ^ 16) with 65536; lia | exact A
      | change (2 ^ Z.of_nat 14) with 16384; lia | lia]. }
  assert (V : within 0%float 1%float (volume f) = true
              /\ within 3%float 7%float (3 + volume f * 4)%float = true).
  { unfold volumeCheck in CV. cbv zeta in CV.
    destruct (sumBins_exact data (length data) 0 0) as [E R];
      [lia | lia | change (2 ^ 15) with 32768; lia |].
    unfold f, analyse. cbv zeta. cbn [volume]. rewrite Z0, E.
    apply andb_true_iff.
    apply (allSums_guarded 15 (255 * Z.of_nat (length data))
             (fun x => within 0%float 1%float (x / JS.of_nat (length data) / 255)%float
                       && within 3%float 7%float
                            (3 + x / JS.of_nat (length data) / 255 * 4)%float));
      [lia | change (2 ^ 16) with 65536; lia | exact CV
      | change (2 ^ Z.of_nat 15) with 32768; lia | lia]. }
  destruct V as [V1 V2]. split; [exact B|]. split; [exact T|].
  split; [exact V1|]. split; [exact V2|].
  intros random s G.
  destruct (update_outcome (Some data) random s G) as (_ & _ & _ & _ & _ & -> & _).
  exact V2.
Qed.

Lemma features_in_range_witness :
  within 3%float 7%float
    (scrollSpeed (update true (Some loud) 0%float initialState).1) = true.
Proof.
  assert (L : (7 <= length loud <= 128)%nat) by (vm_compute; lia).
  destruct (features_in_range loud L) as (_ & _ & _ & _ & H).
  apply H. reflexivity.
Defined.

(** *** The sampler never divides by zero *)







(** ** The spectrum bars *)

Lemma maxCheck_table :
  allSums (bits 8) 0%uint63 (fun a => allSums (bits 8) 0%uint63 (maxCheck a)) = true.
Proof. vm_compute. reflexivity. Qed.

Lemma heightCheck_table : allSums (bits 8) 0%uint63 heightCheck = true.
Proof. vm_compute. reflexivity. Qed.

Lemma stepCheck_table : forallb stepCheck (seq 0 129) = true.
Proof. vm_compute. reflexivity. Qed.

Lemma of_Z_small z : 0 <= z < 2 ^ 8 -> Uint63.to_Z (Uint63.of_Z z) = z.
Proof.
  intros Z. pose proof wB_big as W. change (2 ^ 8) with 256 in Z.
  change (2 ^ 16) with 65536 in W.
  rewrite Uint63.of_Z_spec. apply Z.mod_small. lia.
Qed.

Lemma Math_max_bytes a b :
  0 <= a < 2 ^ 8 -> 0 <= b < 2 ^ 8 -> Math_max (ofZ a) (ofZ b) = ofZ (Z.max a b).
Proof.
  intros A B. assert (K : (8 <= 15)%nat) by lia.
  pose proof (allSums_from_zero 8 _ K maxCheck_table a A) as H. cbv beta in H.
  pose proof (allSums_from_zero 8 _ K H b B) as E.
  apply FloatAxioms.Leibniz.eqb_spec in E. unfold ofZ. rewrite E. f_equal.
  destruct (Uint63.ltb (Uint63.of_Z a) (Uint63.of_Z b)) eqn:L.
  - apply Uint63.ltb_spec in L. rewrite !of_Z_small in L by assumption.
    rewrite Z.max_r by lia. reflexivity.
  - assert (N : ~ a < b).
    { intros C. assert (T : Uint63.ltb (Uint63.of_Z a) (Uint63.of_Z b) = true).
      { apply Uint63.ltb_spec. rewrite !of_Z_small by assumption. exact C. }
      rewrite T in L. discriminate L. }
    rewrite Z.max_l by lia. reflexivity.
Qed.

Lemma windowPeak_bounded data start n : 0 <= windowPeak data start n < 2 ^ 8.
Proof.
  unfold windowPeak. induction (take n (drop start data)) as [|b bs IH].
  - change (0 <= 0 < 2 ^ 8). lia.
  - change (0 <= Z.max (byteZ b) (fold_right Z.max 0 (map byteZ bs)) < 2 ^ 8).
    pose proof (byteZ_bounded b). lia.
Qed.

(** The inner loop finds the largest byte of the window. *)
Lemma barPeak_exact data : forall n start m,
  (start + n <= length data)%nat -> 0 <= m < 2 ^ 8 ->
  barPeak data start n (ofZ m) = ofZ (Z.max m (windowPeak data start n)).
Proof.
  induction n as [|n IH]; intros start m L M.
  - cbn [barPeak]. replace (windowPeak data start 0) with 0 by reflexivity.
    rewrite Z.max_l by lia. reflexivity.
  - cbn [barPeak]. unfold bin.
    destruct (data !! start) as [b|] eqn:E.
    2: { apply lookup_ge_None in E. lia. }
    pose proof (byteZ_bounded b) as Hb.
    rewrite of_byte_ofZ, Math_max_bytes, IH by (try assumption; lia).
    f_equal. unfold windowPeak. rewrite (drop_S _ _ _ E).
    change (take (S n) (b :: drop (S start) data))
      with (b :: take n (drop (S start) data)).
    change (map byteZ (b :: take n (drop (S start) data)))
      with (byteZ b :: map byteZ (take n (drop (S start) data))).
    change (fold_right Z.max 0 (byteZ b :: map byteZ (take n (drop (S start) data))))
      with (Z.max (byteZ b) (fold_right Z.max 0 (map byteZ (take n (drop (S start) data))))).
    lia.
Qed.

Lemma bar_exact data step i :
  (i * step + step <= length data)%nat ->
  skyBars data step i 1 = barOf i (windowPeak data (i * step) step).
Proof.
  intros L. pose proof (windowPeak_bounded data (i * step) step) as P.
  cbn [skyBars]. cbv zeta. rewrite app_nil_r.
  assert (Z0 : 0%float = ofZ 0) by reflexivity.
  rewrite Z0, barPeak_exact by (try assumption; change (2 ^ 8) with 256; lia).
  rewrite Z.max_r by lia. unfold barOf. cbv zeta. f_equal.
  assert (K : (8 <= 15)%nat) by lia.
  pose proof (allSums_from_zero 8 _ K heightCheck_table _ P) as H.
  unfold heightCheck in H. apply andb_true_iff in H as [_ H].
  apply Bool.eqb_prop in H. fold (ofZ (windowPeak data (i * step) step)) in H.
  rewrite H. clear H.
  replace (Uint63.ltb 100%uint63 (Uint63.of_Z (windowPeak data (i * step) step)))
    with (100 <? windowPeak data (i * step) step); [reflexivity|].
  destruct (100 <? _) eqn:C.
  - symmetry. apply Uint63.ltb_spec. rewrite of_Z_small by assumption.
    apply Z.ltb_lt in C. exact C.
  - destruct (Uint63.ltb _ _) eqn:D; [|reflexivity].
    apply Uint63.ltb_spec in D. rewrite of_Z_small in D by assumption.
    apply Z.ltb_ge in C. change (Uint63.to_Z 100%uint63) with 100 in D. lia.
Qed.

Lemma skyBars_exact data step : forall n i,
  ((i + n) * step <= length data)%nat ->
  skyBars data step i n
  = flat_map (fun k => barOf k (windowPeak data (k * step) step)) (seq i n).
Proof.
  induction n as [|n IH]; intros i L; [reflexivity|].
  cbn [seq flat_map]. rewrite <- IH by lia.
  rewrite <- bar_exact by nia. cbn [skyBars]. cbv zeta. rewrite app_nil_r.
  reflexivity.
Qed.

(** X14: what the spectrum view draws, for a buffer of at most 128 bins.
    Nothing for an empty buffer.  Otherwise 16 bars from left to right, bar
    [i] showing the largest byte of the [i]-th window of [N / 16]
    consecutive bins (no bin past the end is read, and the last [N mod 16]
    bins are not shown), with a height between 0 and 135, followed by a block
    exactly when that byte is above 100. *)
Theorem sky_spectrum data :
  (length data <= 128)%nat ->
  let step := (length data / 16)%nat in
  drawSkySpectrum data
  = (if (length data =? 0)%nat then []
     else flat_map (fun i => barOf i (windowPeak data (i * step) step)) (seq 0 16))
  /\ forall i,
       0 <= windowPeak data (i * step) step <= 255
       /\ within 0%float 135%float
            (ofZ (windowPeak data (i * step) step) / 255 * (CANVAS_HEIGHT / 2))%float
          = true.
Proof.
  intros L step. split.
  - unfold drawSkySpectrum. cbv zeta. destruct (length data =? 0)%nat; [reflexivity|].
    assert (I : In (length data) (seq 0 129)) by (apply List.in_seq; lia).
    pose proof (proj1 (List.forallb_forall _ _) stepCheck_table _ I) as C.
    unfold stepCheck in C. apply Nat.eqb_eq in C. rewrite C. fold step.
    apply skyBars_exact. unfold step.
    pose proof (Nat.Div0.mul_div_le (length data) 16) as D. lia.
  - intros i. pose proof (windowPeak_bounded data (i * step) step) as P.
    split; [change (2 ^ 8) with 256 in P; lia|].
    assert (K : (8 <= 15)%nat) by lia.
    pose proof (allSums_from_zero 8 _ K heightCheck_table _ P) as H.
    unfold heightCheck in H. apply andb_true_iff in H as [H _]. exact H.
Qed.

Lemma sky_spectrum_witness :
  drawSkySpectrum loud
  = flat_map (fun i => barOf i (windowPeak loud (i * (length loud / 16)) (length loud / 16)))
             (seq 0 16).
Proof.
  assert (L : (length loud <= 128)%nat) by (vm_compute; lia).
  exact (proj1 (sky_spectrum loud L)).
Defined.
